(** * Rational.ts: exact rational numbers over bigint

    A shallow embedding of [src/Rational.ts] and the properties of its
    canonical construction, arithmetic, comparison, rounding and interning
    cache.

    Conventions of the embedding:
    - a JavaScript [bigint] is a [Z];
    - a JavaScript string is a [string] whose characters are code units
      below 256;
    - a thrown exception is the [Err] case of [result]; the static cache
      maps are threaded through every operation that reads or writes them
      (the monad [M]);
    - object identity matters for the two static instances [ZERO] and
      [ONE] only, and is carried by the field [identity]. *)

From Stdlib Require Import ZArith QArith List String Ascii Bool Lia.
From Stdlib Require Import Sorting.Sorted Sorting.Permutation.
Import ListNotations.

Local Open Scope list_scope.
Local Open Scope string_scope.
Local Open Scope Z_scope.

(** ** Exceptions *)

(** The source throws [new Error(message)]; the built-ins it calls throw
    [SyntaxError] and [TypeError]. *)
Inductive error : Type :=
| Error (message : string)
| SyntaxError
| TypeError.

Inductive result (A : Type) : Type :=
| Ok (value : A)
| Err (exn : error).
Arguments Ok {A} value.
Arguments Err {A} exn.

(** The error kinds by the messages the source throws them with. *)
Definition InvalidOperand : error := Error "denominator <= 0".
Definition DivisionByZero : error := Error "inversion of zero".
Definition EmptyInput : error := Error "empty arguments list".
(** [BigInt(string)] on a string that is no integer literal. *)
Definition MalformedInput : error := SyntaxError.

(** ** JavaScript strings and [BigInt] conversions *)

Module Js.

(** [s.split('/')]: the fields between the slashes.  The array is never
    empty: it is given as its first field and the fields after it. *)
Fixpoint split (s : string) : string * list string :=
  match s with
  | EmptyString => (EmptyString, [])
  | String c s' =>
      let (field, fields) := split s' in
      if Ascii.eqb c "/" then (EmptyString, field :: fields)
      else (String c field, fields)
  end.

(** A string in a condition: [undefined] and the empty string are falsy. *)
Definition truthy (s : option string) : bool :=
  match s with
  | Some (String _ _) => true
  | _ => false
  end.

(** The string of a field that is known to be defined. *)
Definition string_of (s : option string) : string :=
  match s with
  | Some s' => s'
  | None => "undefined"
  end.

Definition digit_char (d : Z) : ascii := ascii_of_nat (48 + Z.to_nat d).

Fixpoint digits_of (fuel : nat) (n : Z) (acc : string) : string :=
  match fuel with
  | O => acc
  | S fuel' =>
      let acc' := String (digit_char (n mod 10)) acc in
      if n <? 10 then acc' else digits_of fuel' (n / 10) acc'
  end.

(** Decimal digits of a non-negative integer, most significant first. *)
Definition digits (n : Z) : string :=
  digits_of (S (Z.to_nat (Z.log2 n))) n EmptyString.

(** [bigint.toString()] and a bigint in a template literal. *)
Definition toString (z : Z) : string :=
  if z <? 0 then String "-" (digits (- z)) else digits z.

(** White space that [BigInt(string)] trims. *)
Definition is_white_space (c : ascii) : bool :=
  let n := Z.of_nat (nat_of_ascii c) in
  ((9 <=? n) && (n <=? 13)) || (n =? 32) || (n =? 160).

Fixpoint trim_start (s : string) : string :=
  match s with
  | EmptyString => EmptyString
  | String c s' => if is_white_space c then trim_start s' else s
  end.

Fixpoint trim_end (s : string) : string :=
  match s with
  | EmptyString => EmptyString
  | String c s' =>
      match trim_end s' with
      | EmptyString =>
          if is_white_space c then EmptyString else String c EmptyString
      | t => String c t
      end
  end.

Definition trim (s : string) : string := trim_end (trim_start s).

Definition digit_value (radix : Z) (c : ascii) : option Z :=
  let n := Z.of_nat (nat_of_ascii c) in
  let v := if (48 <=? n) && (n <=? 57) then n - 48
           else if (97 <=? n) && (n <=? 122) then n - 87
           else if (65 <=? n) && (n <=? 90) then n - 55
           else radix in
  if v <? radix then Some v else None.

Fixpoint parse_digits (radix : Z) (s : string) (acc : Z) : option Z :=
  match s with
  | EmptyString => Some acc
  | String c s' =>
      match digit_value radix c with
      | Some v => parse_digits radix s' (radix * acc + v)
      | None => None
      end
  end.

(** One digit at least. *)
Definition parse_number (radix : Z) (s : string) : option Z :=
  match s with
  | EmptyString => None
  | _ => parse_digits radix s 0
  end.

(** A radix prefix [0x], [0o] or [0b] (in either case) and what follows
    it. *)
Definition radix_prefix (s : string) : option (Z * string) :=
  match s with
  | String c0 (String c1 rest) =>
      if Ascii.eqb c0 "0" then
        if Ascii.eqb c1 "x" || Ascii.eqb c1 "X" then Some (16, rest)
        else if Ascii.eqb c1 "o" || Ascii.eqb c1 "O" then Some (8, rest)
        else if Ascii.eqb c1 "b" || Ascii.eqb c1 "B" then Some (2, rest)
        else None
      else None
  | _ => None
  end.

(** The integer literal of a trimmed string: empty is 0, a decimal
    literal takes an optional sign, a literal with a radix prefix takes
    none. *)
Definition integer_literal (s : string) : option Z :=
  match s with
  | EmptyString => Some 0
  | String c rest =>
      if Ascii.eqb c "-" then option_map Z.opp (parse_number 10 rest)
      else if Ascii.eqb c "+" then parse_number 10 rest
      else match radix_prefix s with
           | Some (radix, body) => parse_number radix body
           | None => parse_number 10 s
           end
  end.

(** [BigInt(value)] for a string or [undefined] (a destructured field
    that is missing). *)
Definition BigInt (value : option string) : result Z :=
  match value with
  | None => Err TypeError
  | Some s =>
      match integer_literal (trim s) with
      | Some z => Ok z
      | None => Err SyntaxError
      end
  end.

End Js.

(** ** The bigint helper module *)

(** The module [../bigint/bigint], from which the source imports [abs],
    [divide], [e], [gcd] and [RoundMethod], is not under src/. *)
Module bigint.

(** Modelled from the spec: the rounding methods, truncation toward zero
    (the default of [divide] and [e]), away from zero, floor, ceiling and
    nearest (a tie goes away from zero). *)
Inductive RoundMethod : Type :=
| toZero
| awayFromZero
| floor
| ceiling
| nearest.

(** Modelled from the spec: the absolute value. *)
Definition abs (a : Z) : Z := Z.abs a.

(** Modelled from the spec: the greatest common divisor, which is not
    negative. *)
Definition gcd (a b : Z) : Z := Z.gcd a b.

(** Modelled from the spec: [divide(a, b, method)], the integer division
    of [a] by [b] rounded by [method].  Every call site has [b <> 0]. *)
Definition divide (a b : Z) (method : RoundMethod) : Z :=
  let q := Z.quot a b in
  let r := Z.rem a b in
  let s := Z.sgn a * Z.sgn b in
  match method with
  | toZero => q
  | awayFromZero => if r =? 0 then q else q + s
  | floor => if (r =? 0) || (0 <? s) then q else q - 1
  | ceiling => if (r =? 0) || (s <? 0) then q else q + 1
  | nearest => if Z.abs b <=? 2 * Z.abs r then q + s else q
  end.

(** Modelled from the spec: [e(x, exponent, method)], [x] scaled by a
    power of ten, rounded by [method] when the exponent is negative. *)
Definition e (x exponent : Z) (method : RoundMethod) : Z :=
  if 0 <=? exponent then x * 10 ^ exponent
  else divide x (10 ^ (- exponent)) method.

End bigint.

(** ** Decimal values *)

(** Modelled from the spec: the class [Decimal] of [../decimal/Decimal],
    which is not under src/, holds a signed integer significand and an
    exponent and denotes [significand * 10^exponent]. *)
Record Decimal : Type := mkDecimal { significand : Z; exponent : Z }.

(** Modelled from the spec: [Decimal.ZERO], the decimal of 0. *)
Definition Decimal_ZERO : Decimal := mkDecimal 0 0.

(** Modelled from the spec: [Decimal.fromBigInt(significand, exponent)],
    the decimal with that significand and that exponent. *)
Definition Decimal_fromBigInt (significand exponent : Z) : Decimal :=
  mkDecimal significand exponent.

(** Modelled from the spec: [D(n)] converts a number to a decimal.  Numbers
    are the integral ones here (an array length, a literal such as 2), and
    the decimal of the integer [n] is [n * 10^0]. *)
Definition D (n : Z) : Decimal := mkDecimal n 0.

(** The textual side of [Decimal] is left open: [decimal.string], the
    canonical string of a decimal, and [Decimal.fromString], the parser of
    decimal numerals, which throws on a string it does not accept. *)
Class DecimalText : Type := {
  Decimal_string : Decimal -> string;
  Decimal_fromString : string -> result Decimal
}.

(** ** Rational values and the static state of the class *)

(** Which object a [Rational] is: one of the two created by the static
    initialisers, or one created by [new Rational] inside [create]. *)
Inductive instance : Type :=
| static_ZERO
| static_ONE
| allocated.

Record Rational : Type := mkRational {
  numerator : Z;
  denominator : Z;
  identity : instance
}.

(** Keys of the cache: a string or a number. *)
Inductive key : Type :=
| key_string (s : string)
| key_number (n : Z).

Definition key_eqb (k1 k2 : key) : bool :=
  match k1, k2 with
  | key_string s1, key_string s2 => String.eqb s1 s2
  | key_number n1, key_number n2 => n1 =? n2
  | _, _ => false
  end.

(** A JavaScript [Map]: its entries in insertion order. *)
Module JsMap.

Definition t : Type := list (key * Rational).

Fixpoint get (k : key) (m : t) : option Rational :=
  match m with
  | [] => None
  | (k', v) :: m' => if key_eqb k k' then Some v else get k m'
  end.

Fixpoint delete (k : key) (m : t) : t :=
  match m with
  | [] => []
  | (k', v) :: m' => if key_eqb k k' then m' else (k', v) :: delete k m'
  end.

(** [set] keeps the position of a key that is present and appends a new
    one. *)
Fixpoint set (k : key) (v : Rational) (m : t) : t :=
  match m with
  | [] => [(k, v)]
  | (k', v') :: m' =>
      if key_eqb k k' then (k, v) :: m' else (k', v') :: set k v m'
  end.

Definition size (m : t) : Z := Z.of_nat (List.length m).

(** [n] times: take the next key of the iterator and delete it. *)
Fixpoint delete_oldest (n : nat) (m : t) : t :=
  match n with
  | O => m
  | S n' =>
      match m with
      | [] => []
      | (k, _) :: _ => delete_oldest n' (delete k m)
      end
  end.

End JsMap.

(** [Rational.cache] and [Rational.cacheHits]. *)
Record store : Type := mkStore {
  cache : JsMap.t;
  cacheHits : JsMap.t
}.

(** Both maps are empty when the class is initialised. *)
Definition initial_store : store := mkStore [] [].

(** Computations that read and write the static maps and may throw. *)
Definition M (A : Type) : Type := store -> result A * store.

Definition ret {A : Type} (a : A) : M A := fun st => (Ok a, st).

Definition throw {A : Type} (exn : error) : M A := fun st => (Err exn, st).

Definition bind {A B : Type} (m : M A) (k : A -> M B) : M B :=
  fun st =>
    match m st with
    | (Ok a, st') => k a st'
    | (Err exn, st') => (Err exn, st')
    end.

Definition lift {A : Type} (r : result A) : M A := fun st => (r, st).

Notation "x <- m ;; k" := (bind m (fun x => k))
  (at level 61, m at next level, right associativity).

(** ** The class [Rational] *)

Module Rational.

Definition ZERO : Rational := mkRational 0 1 static_ZERO.
Definition ONE : Rational := mkRational 1 1 static_ONE.

(** [new Rational(numerator, denominator)] after the static initialisers:
    the constructor is private and [create] is its only other caller. *)
Definition new (numerator denominator : Z) : Rational :=
  mkRational numerator denominator allocated.

(** [this === Rational.ZERO]. *)
Definition is_ZERO (this : Rational) : bool :=
  match identity this with
  | static_ZERO => true
  | _ => false
  end.

(** *** The interning cache *)

(** The statements of [addToCache] below its first one (lines 32 to 46):
    the eviction pass at the high-water mark, then the insertion. *)
Definition addToCache_after_return (rational : Rational) (k : key)
  (st : store) : store :=
  let st1 :=
    if JsMap.size (cache st) =? 2 ^ 16 then
      let refreshed :=
        fold_left (fun c entry => JsMap.set (fst entry) (snd entry)
                                    (JsMap.delete (fst entry) c))
                  (cacheHits st) (cache st) in
      mkStore (JsMap.delete_oldest (Z.to_nat (2 ^ 12)) refreshed) []
    else st in
  mkStore (JsMap.set k rational (cache st1)) (cacheHits st1).

(** [addToCache]: its first statement is [return] (line 28), so the call
    ends there and [addToCache_after_return] never runs. *)
Definition addToCache (rational : Rational) (k : key) : M unit :=
  fun st => (Ok tt, st).

Definition getFromCache (k : key) : M (option Rational) :=
  fun st =>
    match JsMap.get k (cache st) with
    | Some rational =>
        (Ok (Some rational),
         mkStore (cache st) (JsMap.set k rational (cacheHits st)))
    | None => (Ok None, st)
    end.

(** *** Canonical construction *)

Definition create (numerator denominator : Z) : M Rational :=
  if negb (numerator =? 0) then
    if denominator <=? 0 then throw InvalidOperand
    else
      let k := key_string
                 (Js.toString numerator ++ "/" ++ Js.toString denominator) in
      cached <- getFromCache k ;;
      match cached with
      | Some rational => ret rational
      | None =>
          let gcd2 := bigint.gcd numerator denominator in
          let numerator2 := bigint.divide numerator gcd2 bigint.toZero in
          let denominator2 := bigint.divide denominator gcd2 bigint.toZero in
          let rational := new numerator2 denominator2 in
          _ <- addToCache rational k ;;
          ret rational
      end
  else ret ZERO.

(** *** Getters and arithmetic

    The decorator [selfReplacing] stores a getter's value on the instance
    at the first access; a getter is modelled by the function it
    computes.  The getter [number] and [Symbol.toPrimitive], which produce
    floating-point numbers, are left out. *)

Definition string_ (this : Rational) : string :=
  Js.toString (numerator this) ++
  (if denominator this =? 1 then ""
   else "/" ++ Js.toString (denominator this)).

Definition json (this : Rational) : string :=
  Js.toString (numerator this) ++ "/" ++ Js.toString (denominator this).

Definition add (this rational : Rational) : M Rational :=
  let a := numerator this * denominator rational in
  let b := numerator rational * denominator this in
  create (a + b) (denominator this * denominator rational).

Definition mul (this rational : Rational) : M Rational :=
  create (numerator this * numerator rational)
         (denominator this * denominator rational).

Definition negative (this : Rational) : bool := numerator this <? 0.

Definition negated (this : Rational) : M Rational :=
  create (- numerator this) (denominator this).

Definition abs (this : Rational) : M Rational :=
  if negative this then negated this else ret this.

(** The getter of the class, and the one that
    [Object.defineProperty(Rational.ZERO, 'inverted', ...)] installs on
    the instance [ZERO] (lines 308 to 312). *)
Definition inverted (this : Rational) : M Rational :=
  if is_ZERO this then throw DivisionByZero
  else
    create (if negative this then - denominator this else denominator this)
           (bigint.abs (numerator this)).

Definition sub (this rational : Rational) : M Rational :=
  negated_rational <- negated rational ;;
  add this negated_rational.

Definition div (this rational : Rational) : M Rational :=
  inverted_rational <- inverted rational ;;
  mul this inverted_rational.

(** *** Comparison *)

Definition cmp (this rational : Rational) : Z :=
  if Bool.eqb (negative this) (negative rational) then
    let a := numerator this * denominator rational in
    let b := numerator rational * denominator this in
    if a <? b then -1 else if a >? b then 1 else 0
  else if negative this then -1 else 1.

Definition eq (this rational : Rational) : bool := cmp this rational =? 0.
Definition ne (this rational : Rational) : bool :=
  negb (cmp this rational =? 0).
Definition lt (this rational : Rational) : bool := cmp this rational =? -1.
Definition le (this rational : Rational) : bool :=
  negb (cmp this rational =? 1).
Definition gt (this rational : Rational) : bool := cmp this rational =? 1.
Definition ge (this rational : Rational) : bool :=
  negb (cmp this rational =? -1).

(** *** Rounding *)

Definition roundByRational (this rational : Rational)
  (method : bigint.RoundMethod) : M Rational :=
  division <- div this rational ;;
  let numerator2 :=
    bigint.divide (numerator division) (denominator division) method in
  create (numerator rational * numerator2) (denominator rational).

Definition roundToDecimal (this : Rational) (decimal : Z)
  (method : bigint.RoundMethod) : Decimal :=
  let numerator :=
    bigint.e (numerator this) (if decimal >? 0 then decimal else 0)
             bigint.toZero in
  let denominator :=
    bigint.e (denominator this) (if decimal <? 0 then - decimal else 0)
             bigint.toZero in
  let numerator2 := bigint.divide numerator denominator method in
  Decimal_fromBigInt numerator2 (- decimal).

Definition roundToSignificants (this : Rational) (significantsLength : Z)
  (method : bigint.RoundMethod) : Decimal :=
  if is_ZERO this then Decimal_ZERO
  else
    let denominatorLength :=
      Z.of_nat (String.length (Js.toString (denominator this))) in
    let extension := significantsLength + denominatorLength in
    let extendedNumerator :=
      bigint.e (numerator this) extension bigint.toZero in
    let div := bigint.divide extendedNumerator (denominator this) method in
    let divLength :=
      Z.of_nat (String.length (Js.toString div))
      - (if div <? 0 then 1 else 0) in
    let digitsSurplus := divLength - significantsLength in
    let significants := bigint.e div (- digitsSurplus) method in
    let exponent := digitsSurplus - extension in
    Decimal_fromBigInt significants exponent.

(** *** Aggregates without the cache *)

(** [rationals.reduce(f)] with no initial value. *)
Definition reduce (f : Rational -> Rational -> Rational)
  (rationals : list Rational) : result Rational :=
  match rationals with
  | [] => Err TypeError
  | first :: rest => Ok (fold_left f rest first)
  end.

Definition min (rationals : list Rational) : result Rational :=
  reduce (fun result rational => if lt result rational then result
                                 else rational) rationals.

Definition max (rationals : list Rational) : result Rational :=
  reduce (fun result rational => if gt result rational then result
                                 else rational) rationals.

(** [rationals.sort((a, b) => a.cmp(b))]: the sort is stable, and for a
    comparator that is a total preorder every stable sort gives the list
    that insertion gives. *)
Fixpoint insert (a : Rational) (sorted : list Rational) : list Rational :=
  match sorted with
  | [] => [a]
  | b :: sorted' =>
      if cmp a b <=? 0 then a :: sorted else b :: insert a sorted'
  end.

Definition sort (rationals : list Rational) : list Rational :=
  fold_right insert [] rationals.

(** [sorted[i]], at an index that is in range wherever [median] uses it. *)
Definition at_index (sorted : list Rational) (i : Z) : Rational :=
  nth (Z.to_nat i) sorted ZERO.

(** *** Entry points and aggregates that construct *)

Definition fromJson (numberString : string) : M Rational :=
  cached <- getFromCache (key_string numberString) ;;
  match cached with
  | Some rational => ret rational
  | None =>
      let (numerator, rest) := Js.split numberString in
      let denominator := hd_error rest in
      n <- lift (Js.BigInt (Some numerator)) ;;
      d <- lift (Js.BigInt denominator) ;;
      rational <- create n d ;;
      _ <- addToCache rational (key_string numberString) ;;
      ret rational
  end.

Section WithDecimalText.

Context {decimalText : DecimalText}.

Definition fromDecimal (decimal : Decimal) : M Rational :=
  cached <- getFromCache (key_string (Decimal_string decimal)) ;;
  match cached with
  | Some rational => ret rational
  | None =>
      rational <-
        create
          (bigint.e (significand decimal)
             (if exponent decimal >? 0 then exponent decimal else 0)
             bigint.toZero)
          (bigint.e 1
             (if exponent decimal <? 0 then - exponent decimal else 0)
             bigint.toZero) ;;
      _ <- addToCache rational (key_string (Decimal_string decimal)) ;;
      ret rational
  end.

Definition fromString (numberString : string) : M Rational :=
  cached <- getFromCache (key_string numberString) ;;
  match cached with
  | Some rational => ret rational
  | None =>
      let (numeratorString, rest) := Js.split numberString in
      let denominatorString := hd_error rest in
      numeratorDecimal <- lift (Decimal_fromString numeratorString) ;;
      rational <- fromDecimal numeratorDecimal ;;
      rational <-
        (if Js.truthy denominatorString then
           denominatorDecimal <-
             lift (Decimal_fromString (Js.string_of denominatorString)) ;;
           denominatorRational <- fromDecimal denominatorDecimal ;;
           div rational denominatorRational
         else ret rational) ;;
      _ <- addToCache rational (key_string numberString) ;;
      ret rational
  end.

Definition fromNumber (n : Z) : M Rational :=
  cached <- getFromCache (key_number n) ;;
  match cached with
  | Some rational => ret rational
  | None =>
      rational <- fromDecimal (D n) ;;
      _ <- addToCache rational (key_number n) ;;
      ret rational
  end.

(** The exported function [R]: its argument is a number or a decimal,
    the types that pass its run-time check. *)
Definition R (s : Z + Decimal) : M Rational :=
  match s with
  | inl n => fromNumber n
  | inr decimal => fromDecimal decimal
  end.

(** [rationals.reduce((result, rational) => result.add(rational),
    result)]. *)
Fixpoint reduce_add (rationals : list Rational) (result : Rational)
  : M Rational :=
  match rationals with
  | [] => ret result
  | rational :: rest =>
      next <- add result rational ;;
      reduce_add rest next
  end.

Definition sum (rationals : list Rational) : M Rational :=
  reduce_add rationals ZERO.

Definition avg (rationals : list Rational) : M Rational :=
  total <- sum rationals ;;
  count <- R (inl (Z.of_nat (List.length rationals))) ;;
  div total count.

Definition median (rationals : list Rational) : M Rational :=
  if negb (Z.of_nat (List.length rationals) =? 0) then
    let sorted := sort rationals in
    let half := Z.shiftr (Z.of_nat (List.length sorted)) 1 in
    if negb (Z.land (Z.of_nat (List.length sorted)) 1 =? 0) then
      ret (at_index sorted half)
    else avg [at_index sorted (half - 1); at_index sorted half]
  else throw EmptyInput.

End WithDecimalText.

End Rational.

(** ** Vocabulary of the properties *)

(** Reduced, with a positive denominator. *)
Definition canonical (r : Rational) : Prop :=
  Z.gcd (Z.abs (numerator r)) (denominator r) = 1 /\ 1 <= denominator r.

(** The objects of the class that exist at run time: canonical, the value 0
    only as the instance [ZERO], and the two static identities only on the
    objects the static initialisers made. *)
Definition well_formed (r : Rational) : Prop :=
  canonical r /\
  (numerator r = 0 -> r = Rational.ZERO) /\
  (identity r = static_ZERO -> r = Rational.ZERO) /\
  (identity r = static_ONE -> r = Rational.ONE).

(** The rational number that an object with a positive denominator
    denotes. *)
Definition value (r : Rational) : Q :=
  Qmake (numerator r) (Z.to_pos (denominator r)).

(** The sign that [cmp] returns for a comparison. *)
Definition sign_of (c : comparison) : Z :=
  match c with
  | Lt => -1
  | Eq => 0
  | Gt => 1
  end.

(** A computation that, run with an empty cache, leaves both maps as they
    were and returns only values that satisfy [P]. *)
Definition cache_neutral {A : Type} (P : A -> Prop) (m : M A) : Prop :=
  forall st, cache st = [] ->
    exists res, m st = (res, st) /\ forall a, res = Ok a -> P a.

(** The same for an operation that does not touch the cache. *)
Definition returns_only {A : Type} (P : A -> Prop) (res : result A) : Prop :=
  forall a, res = Ok a -> P a.

(** Every character of a string satisfies [p]. *)
Fixpoint all_chars (p : ascii -> bool) (s : string) : bool :=
  match s with
  | EmptyString => true
  | String c s' => p c && all_chars p s'
  end.

Definition is_digit (c : ascii) : bool :=
  let n := Z.of_nat (nat_of_ascii c) in (48 <=? n) && (n <=? 57).

(** The characters of a printed bigint. *)
Definition digit_or_minus (c : ascii) : bool := is_digit c || Ascii.eqb c "-".

Definition not_slash (c : ascii) : bool := negb (Ascii.eqb c "/").

(** Number of decimal digits of a bigint, the sign apart. *)
Definition digit_count (z : Z) : Z :=
  Z.of_nat (String.length (Js.digits (Z.abs z))).

(** A [DecimalText] for the examples: the numerals are the integers with an
    optional minus sign, the canonical string is the significand and the
    exponent with an [e] between them. *)
Definition integer_numerals : DecimalText := {|
  Decimal_string := fun d =>
    Js.toString (significand d) ++ "e" ++ Js.toString (exponent d);
  Decimal_fromString := fun s =>
    match s with
    | String c rest =>
        match (if Ascii.eqb c "-"
               then option_map Z.opp (Js.parse_number 10 rest)
               else Js.parse_number 10 s) with
        | Some z => Ok (mkDecimal z 0)
        | None => Err SyntaxError
        end
    | EmptyString => Err SyntaxError
    end
|}.

(** ** Vocabulary of the further properties *)

(** A computation that, run with an empty cache, leaves both maps as they
    were and returns a well-formed Rational other than the instance [ONE],
    of value [q]. *)
Definition evaluates_to (m : M Rational) (st : store) (q : Q) : Prop :=
  exists r,
    m st = (Ok r, st) /\ well_formed r /\ identity r <> static_ONE /\
    Qeq (value r) q.

(** A computation that does not write [Rational.cache], whatever the two
    maps hold. *)
Definition cache_preserved {A : Type} (m : M A) : Prop :=
  forall st, cache (snd (m st)) = cache st.

(** The sum of the values of a list of Rationals. *)
Definition sum_of_values (rationals : list Rational) : Q :=
  fold_right (fun r acc => Qplus (value r) acc) (inject_Z 0) rationals.

(** The integer numerals that a decimal parser reads as decimals of the
    integer they print. *)
Definition reads_integers (decimalText : DecimalText) : Prop :=
  forall z, exists decimal,
    Decimal_fromString (Js.toString z) = Ok decimal /\
    significand decimal * 10 ^ Z.max (exponent decimal) 0
    = z * 10 ^ Z.max (- exponent decimal) 0.

(** * Properties *)

(** Splits a conjunction into its conjuncts, without unfolding any of
    them. *)
Ltac split_ands :=
  match goal with
  | |- _ /\ _ => split; [|split_ands]
  | _ => idtac
  end.

(** ** Strings and integer literals *)

Lemma append_assoc (a b c : string) : (a ++ b) ++ c = a ++ (b ++ c).
Proof. induction a as [|x a IH]; simpl; [reflexivity | now rewrite IH]. Qed.

Lemma all_chars_app p (a b : string) :
  all_chars p (a ++ b) = all_chars p a && all_chars p b.
Proof.
  induction a as [|x a IH]; simpl; [reflexivity|].
  now rewrite IH, andb_assoc.
Qed.

Lemma all_chars_impl (p q : ascii -> bool) (s : string) :
  (forall c, p c = true -> q c = true) ->
  all_chars p s = true -> all_chars q s = true.
Proof.
  intros Hpq. induction s as [|x s IH]; simpl; [reflexivity|].
  intros H. apply andb_true_iff in H as [Hx Hs].
  rewrite (Hpq _ Hx), (IH Hs). reflexivity.
Qed.

Lemma split_app_slash (a b : string) :
  all_chars not_slash a = true ->
  Js.split (a ++ String "/" b) =
  (a, fst (Js.split b) :: snd (Js.split b)).
Proof.
  induction a as [|x a IH]; simpl; intros H.
  - destruct (Js.split b); reflexivity.
  - apply andb_true_iff in H as [Hx Ha].
    rewrite (IH Ha). unfold not_slash in Hx.
    apply negb_true_iff in Hx. rewrite Hx. reflexivity.
Qed.

Lemma split_no_slash (a : string) :
  all_chars not_slash a = true -> Js.split a = (a, []).
Proof.
  induction a as [|x a IH]; simpl; intros H; [reflexivity|].
  apply andb_true_iff in H as [Hx Ha].
  rewrite (IH Ha). unfold not_slash in Hx.
  apply negb_true_iff in Hx. rewrite Hx. reflexivity.
Qed.

Lemma digit_char_is_digit (d : Z) :
  0 <= d < 10 -> is_digit (Js.digit_char d) = true.
Proof.
  intros H.
  assert (d = 0 \/ d = 1 \/ d = 2 \/ d = 3 \/ d = 4 \/ d = 5 \/ d = 6
          \/ d = 7 \/ d = 8 \/ d = 9) as Hd by lia.
  repeat (destruct Hd as [-> | Hd]; [reflexivity|]). subst; reflexivity.
Qed.

Lemma digit_value_digit_char (d : Z) :
  0 <= d < 10 -> Js.digit_value 10 (Js.digit_char d) = Some d.
Proof.
  intros H.
  assert (d = 0 \/ d = 1 \/ d = 2 \/ d = 3 \/ d = 4 \/ d = 5 \/ d = 6
          \/ d = 7 \/ d = 8 \/ d = 9) as Hd by lia.
  repeat (destruct Hd as [-> | Hd]; [reflexivity|]). subst; reflexivity.
Qed.

Lemma digits_of_acc (fuel : nat) : forall n acc,
  Js.digits_of fuel n acc = Js.digits_of fuel n "" ++ acc.
Proof.
  induction fuel as [|fuel IH]; intros n acc; simpl; [reflexivity|].
  destruct (n <? 10); [reflexivity|].
  rewrite (IH _ (String _ acc)), (IH _ (String _ "")).
  rewrite append_assoc. reflexivity.
Qed.

Lemma digits_of_all_digit (fuel : nat) : forall n,
  all_chars is_digit (Js.digits_of fuel n "") = true.
Proof.
  induction fuel as [|fuel IH]; intros n; simpl; [reflexivity|].
  assert (is_digit (Js.digit_char (n mod 10)) = true) as Hd
    by (apply digit_char_is_digit, Z.mod_pos_bound; lia).
  destruct (n <? 10); cbn [all_chars].
  - now rewrite Hd.
  - rewrite digits_of_acc, all_chars_app, IH. cbn [all_chars]. now rewrite Hd.
Qed.

Lemma parse_digits_app radix (a b : string) : forall acc,
  Js.parse_digits radix (a ++ b) acc =
  match Js.parse_digits radix a acc with
  | Some v => Js.parse_digits radix b v
  | None => None
  end.
Proof.
  induction a as [|x a IH]; intros acc; simpl; [reflexivity|].
  destruct (Js.digit_value radix x); [apply IH | reflexivity].
Qed.

Lemma parse_digits_of (fuel : nat) : forall n,
  0 <= n < 10 ^ Z.of_nat fuel ->
  Js.parse_digits 10 (Js.digits_of fuel n "") 0 = Some n.
Proof.
  induction fuel as [|fuel IH]; intros n Hn.
  - simpl in *. f_equal. lia.
  - cbn [Js.digits_of]. destruct (Z.ltb_spec n 10) as [Hlt | Hge].
    + cbn [Js.parse_digits]. rewrite digit_value_digit_char.
      * rewrite Z.mod_small by lia. f_equal.
      * apply Z.mod_pos_bound. lia.
    + rewrite digits_of_acc, parse_digits_app, IH.
      * cbn [Js.parse_digits].
        rewrite digit_value_digit_char by (apply Z.mod_pos_bound; lia).
        f_equal. pose proof (Z.div_mod n 10). lia.
      * rewrite Nat2Z.inj_succ, Z.pow_succ_r in Hn by lia.
        split; [apply Z.div_pos; lia|].
        apply Z.div_lt_upper_bound; lia.
Qed.

Lemma digits_fuel (n : Z) :
  0 <= n -> n < 10 ^ Z.of_nat (S (Z.to_nat (Z.log2 n))).
Proof.
  intros Hn. rewrite Nat2Z.inj_succ, Z2Nat.id by apply Z.log2_nonneg.
  destruct (Z.eq_dec n 0) as [-> | Hnz]; [reflexivity|].
  assert (n < 2 ^ Z.succ (Z.log2 n)) by (apply Z.log2_spec; lia).
  assert (2 ^ Z.succ (Z.log2 n) <= 10 ^ Z.succ (Z.log2 n)).
  { apply Z.pow_le_mono_l. lia. }
  lia.
Qed.

Lemma digits_all_digit (n : Z) : all_chars is_digit (Js.digits n) = true.
Proof. apply digits_of_all_digit. Qed.

Lemma digits_nonempty (n : Z) :
  exists c rest, Js.digits n = String c rest.
Proof.
  unfold Js.digits. cbn [Js.digits_of].
  destruct (n <? 10); [eauto|].
  rewrite digits_of_acc.
  destruct (Js.digits_of _ _ "") as [|c rest]; simpl; eauto.
Qed.

Lemma parse_number_digits (n : Z) :
  0 <= n -> Js.parse_number 10 (Js.digits n) = Some n.
Proof.
  intros Hn. destruct (digits_nonempty n) as (c & rest & E).
  unfold Js.parse_number. rewrite E, <- E.
  apply parse_digits_of. split; [assumption | now apply digits_fuel].
Qed.

Lemma digit_or_minus_facts (c : ascii) :
  digit_or_minus c = true ->
  Js.is_white_space c = false /\ not_slash c = true.
Proof.
  destruct c as [[] [] [] [] [] [] [] []]; intros H;
    try discriminate H; split; reflexivity.
Qed.

Lemma is_digit_facts (c : ascii) :
  is_digit c = true ->
  Ascii.eqb c "-" = false /\ Ascii.eqb c "+" = false /\
  Ascii.eqb c "x" || Ascii.eqb c "X" = false /\
  Ascii.eqb c "o" || Ascii.eqb c "O" = false /\
  Ascii.eqb c "b" || Ascii.eqb c "B" = false.
Proof.
  destruct c as [[] [] [] [] [] [] [] []]; intros H;
    try discriminate H; repeat split; reflexivity.
Qed.

Lemma toString_chars (z : Z) : all_chars digit_or_minus (Js.toString z) = true.
Proof.
  assert (forall n, all_chars digit_or_minus (Js.digits n) = true) as Hd.
  { intros n. apply all_chars_impl with (p := is_digit).
    - intros c Hc. unfold digit_or_minus. now rewrite Hc.
    - apply digits_all_digit. }
  unfold Js.toString. destruct (z <? 0); [simpl|]; apply Hd.
Qed.

Lemma toString_no_slash (z : Z) : all_chars not_slash (Js.toString z) = true.
Proof.
  apply all_chars_impl with (p := digit_or_minus); [|apply toString_chars].
  intros c Hc. now apply digit_or_minus_facts.
Qed.

Lemma trim_end_id (s : string) :
  all_chars digit_or_minus s = true -> Js.trim_end s = s.
Proof.
  induction s as [|c s IH]; simpl; intros H; [reflexivity|].
  apply andb_true_iff in H as [Hc Hs]. rewrite (IH Hs).
  destruct (digit_or_minus_facts c Hc) as [Hw _]. rewrite Hw.
  destruct s; reflexivity.
Qed.

Lemma trim_id (s : string) :
  all_chars digit_or_minus s = true -> Js.trim s = s.
Proof.
  intros H. unfold Js.trim.
  assert (Js.trim_start s = s) as ->; [|now apply trim_end_id].
  destruct s as [|c s]; [reflexivity|]. simpl in *.
  apply andb_true_iff in H as [Hc _].
  destruct (digit_or_minus_facts c Hc) as [Hw _]. now rewrite Hw.
Qed.

Lemma integer_literal_digits (n : Z) :
  0 <= n -> Js.integer_literal (Js.digits n) = Some n.
Proof.
  intros Hn. pose proof (parse_number_digits n Hn) as Hp.
  pose proof (digits_all_digit n) as Ha.
  destruct (Js.digits n) as [|c rest]; [discriminate Hp|].
  simpl in Ha. apply andb_true_iff in Ha as [Hc Hrest].
  unfold Js.integer_literal.
  destruct (is_digit_facts c Hc) as (-> & -> & _).
  assert (Js.radix_prefix (String c rest) = None) as ->; [|exact Hp].
  unfold Js.radix_prefix. destruct rest as [|c1 rest]; [reflexivity|].
  simpl in Hrest. apply andb_true_iff in Hrest as [Hc1 _].
  destruct (is_digit_facts c1 Hc1) as (_ & _ & -> & -> & ->).
  destruct (Ascii.eqb c "0"); reflexivity.
Qed.

(** [BigInt] reads back the integer that [toString] printed. *)
Lemma BigInt_toString (z : Z) : Js.BigInt (Some (Js.toString z)) = Ok z.
Proof.
  unfold Js.BigInt. rewrite trim_id by apply toString_chars.
  unfold Js.toString. destruct (Z.ltb_spec z 0) as [Hneg | Hpos].
  - cbn [Js.integer_literal]. 
    replace (Ascii.eqb "-" "-") with true by reflexivity.
    rewrite parse_number_digits by lia. simpl. f_equal. lia.
  - now rewrite integer_literal_digits.
Qed.

(** ** The cache and the monad *)

Lemma getFromCache_miss (k : key) (st : store) :
  cache st = [] -> Rational.getFromCache k st = (Ok None, st).
Proof. intros H. unfold Rational.getFromCache. now rewrite H. Qed.

Lemma addToCache_returns (rational : Rational) (k : key) (st : store) :
  Rational.addToCache rational k st = (Ok tt, st).
Proof. reflexivity. Qed.

Lemma bind_lift {A B} (r : result A) (k : A -> M B) (st : store) :
  bind (lift r) k st =
  match r with
  | Ok a => k a st
  | Err exn => (Err exn, st)
  end.
Proof. unfold bind, lift. destruct r; reflexivity. Qed.

(** Interning a value and returning it is returning it. *)
Lemma bind_intern (m : M Rational) (k : key) (st : store) :
  bind m (fun rational =>
            bind (Rational.addToCache rational k) (fun _ => ret rational)) st
  = m st.
Proof. unfold bind. destruct (m st) as [[r | exn] st']; reflexivity. Qed.

Lemma cache_neutral_ret {A} (P : A -> Prop) (a : A) :
  P a -> cache_neutral P (ret a).
Proof.
  intros Ha st _. exists (Ok a). split; [reflexivity|].
  intros a' E. now inversion E; subst.
Qed.

Lemma cache_neutral_throw {A} (P : A -> Prop) (exn : error) :
  cache_neutral P (throw exn).
Proof.
  intros st _. exists (Err exn). split; [reflexivity|].
  intros a E. discriminate.
Qed.

Lemma cache_neutral_lift {A} (P : A -> Prop) (r : result A) :
  returns_only P r -> cache_neutral P (lift r).
Proof. intros Hr st _. exists r. split; [reflexivity | exact Hr]. Qed.

Lemma cache_neutral_bind {A B} (P : A -> Prop) (Q : B -> Prop)
  (m : M A) (k : A -> M B) :
  cache_neutral P m ->
  (forall a, P a -> cache_neutral Q (k a)) ->
  cache_neutral Q (bind m k).
Proof.
  intros Hm Hk st Hst. destruct (Hm st Hst) as (res & E & HP).
  unfold bind. rewrite E. destruct res as [a | exn].
  - apply (Hk a (HP a eq_refl) st Hst).
  - exists (Err exn). split; [reflexivity|]. intros b Eb. discriminate.
Qed.

Lemma cache_neutral_getFromCache (k : key) :
  cache_neutral (fun cached => cached = None) (Rational.getFromCache k).
Proof.
  intros st Hst. exists (Ok None). split; [now apply getFromCache_miss|].
  intros a E. now inversion E.
Qed.

Lemma cache_neutral_addToCache (rational : Rational) (k : key) :
  cache_neutral (fun _ => True) (Rational.addToCache rational k).
Proof. intros st _. exists (Ok tt). split; [reflexivity | trivial]. Qed.

(** A computation wrapped in a cache lookup and an interning of its
    result. *)
Lemma cache_neutral_interned (P : Rational -> Prop) (k : key)
  (m : M Rational) :
  cache_neutral P m ->
  cache_neutral P
    (bind (Rational.getFromCache k) (fun cached =>
       match cached with
       | Some rational => ret rational
       | None =>
           bind m (fun rational =>
             bind (Rational.addToCache rational k) (fun _ => ret rational))
       end)).
Proof.
  intros Hm. eapply cache_neutral_bind; [apply cache_neutral_getFromCache|].
  intros cached ->. intros st Hst. rewrite bind_intern. apply (Hm st Hst).
Qed.

(** ** Canonical construction *)

Lemma quot_gcd_l (n d : Z) :
  Z.gcd n d <> 0 -> Z.quot n (Z.gcd n d) = n / Z.gcd n d.
Proof.
  intros Hg. destruct (Z.gcd_divide_l n d) as [k Hk].
  rewrite Hk at 1 3. now rewrite Z.quot_mul, Z.div_mul.
Qed.

Lemma quot_gcd_r (n d : Z) :
  Z.gcd n d <> 0 -> Z.quot d (Z.gcd n d) = d / Z.gcd n d.
Proof.
  intros Hg. destruct (Z.gcd_divide_r n d) as [k Hk].
  rewrite Hk at 1 3. now rewrite Z.quot_mul, Z.div_mul.
Qed.

(** What [create] returns when the lookup misses. *)
Lemma create_miss (n d : Z) (st : store) :
  cache st = [] ->
  Rational.create n d st =
  (if n =? 0 then Ok Rational.ZERO
   else if d <=? 0 then Err InvalidOperand
   else Ok (Rational.new (n / Z.gcd n d) (d / Z.gcd n d)), st).
Proof.
  intros Hst. unfold Rational.create.
  destruct (Z.eqb_spec n 0) as [-> | Hn]; [reflexivity|]. cbn [negb].
  destruct (d <=? 0); [reflexivity|].
  unfold bind. rewrite (getFromCache_miss _ _ Hst). cbn.
  unfold bigint.divide, bigint.gcd.
  assert (Z.gcd n d <> 0) as Hg.
  { intros Hg. apply Z.gcd_eq_0_l in Hg. contradiction. }
  now rewrite quot_gcd_l, quot_gcd_r.
Qed.

Lemma well_formed_ZERO : well_formed Rational.ZERO.
Proof. repeat split; try reflexivity; cbn; try lia; discriminate. Qed.

Lemma well_formed_ONE : well_formed Rational.ONE.
Proof. repeat split; try reflexivity; cbn; try lia; discriminate. Qed.

Lemma well_formed_new (n d : Z) :
  n <> 0 -> 0 < d -> well_formed (Rational.new (n / Z.gcd n d) (d / Z.gcd n d)).
Proof.
  intros Hn Hd.
  assert (0 < Z.gcd n d) as Hg.
  { pose proof (Z.gcd_nonneg n d).
    assert (Z.gcd n d <> 0) by (intros E; apply Z.gcd_eq_0_l in E; lia). lia. }
  destruct (Z.gcd_divide_l n d) as [kn Hkn].
  destruct (Z.gcd_divide_r n d) as [kd Hkd].
  assert (n / Z.gcd n d = kn) as En by (rewrite Hkn at 1; apply Z.div_mul; lia).
  assert (d / Z.gcd n d = kd) as Ed by (rewrite Hkd at 1; apply Z.div_mul; lia).
  assert (Z.gcd kn kd = 1) as Hc.
  { rewrite <- En, <- Ed. apply Z.gcd_div_gcd; [lia | reflexivity]. }
  rewrite En, Ed. unfold well_formed, canonical, Rational.new. cbn.
  repeat split.
  - now rewrite Z.gcd_abs_l.
  - nia.
  - intros ->. lia.
  - discriminate.
  - discriminate.
Qed.

Lemma cache_neutral_create (n d : Z) :
  cache_neutral well_formed (Rational.create n d).
Proof.
  intros st Hst. rewrite (create_miss n d st Hst).
  eexists. split; [reflexivity|].
  intros r E. destruct (Z.eqb_spec n 0) as [-> | Hn].
  - inversion E. apply well_formed_ZERO.
  - destruct (Z.leb_spec d 0); [discriminate|].
    inversion E. now apply well_formed_new.
Qed.

(** [create] on a pair that is already reduced. *)
Lemma create_reduced (n d : Z) (st : store) :
  cache st = [] -> n <> 0 -> 0 < d -> Z.gcd n d = 1 ->
  Rational.create n d st = (Ok (Rational.new n d), st).
Proof.
  intros Hst Hn Hd Hg. rewrite (create_miss n d st Hst), Hg.
  destruct (Z.eqb_spec n 0); [contradiction|].
  destruct (Z.leb_spec d 0); [lia|]. now rewrite !Z.div_1_r.
Qed.

(** ** Every operation returns well-formed values *)

Lemma cache_neutral_add (a b : Rational) :
  cache_neutral well_formed (Rational.add a b).
Proof. apply cache_neutral_create. Qed.

Lemma cache_neutral_mul (a b : Rational) :
  cache_neutral well_formed (Rational.mul a b).
Proof. apply cache_neutral_create. Qed.

Lemma cache_neutral_negated (a : Rational) :
  cache_neutral well_formed (Rational.negated a).
Proof. apply cache_neutral_create. Qed.

Lemma cache_neutral_inverted (a : Rational) :
  cache_neutral well_formed (Rational.inverted a).
Proof.
  unfold Rational.inverted. destruct (Rational.is_ZERO a).
  - apply cache_neutral_throw.
  - apply cache_neutral_create.
Qed.

Lemma cache_neutral_abs (a : Rational) :
  well_formed a -> cache_neutral well_formed (Rational.abs a).
Proof.
  intros Ha. unfold Rational.abs. destruct (Rational.negative a).
  - apply cache_neutral_negated.
  - now apply cache_neutral_ret.
Qed.

Lemma cache_neutral_sub (a b : Rational) :
  cache_neutral well_formed (Rational.sub a b).
Proof.
  eapply cache_neutral_bind; [apply cache_neutral_negated|].
  intros; apply cache_neutral_add.
Qed.

Lemma cache_neutral_div (a b : Rational) :
  cache_neutral well_formed (Rational.div a b).
Proof.
  eapply cache_neutral_bind; [apply cache_neutral_inverted|].
  intros; apply cache_neutral_mul.
Qed.

Lemma cache_neutral_roundByRational (a unit : Rational) method :
  cache_neutral well_formed (Rational.roundByRational a unit method).
Proof.
  eapply cache_neutral_bind; [apply cache_neutral_div|].
  intros; apply cache_neutral_create.
Qed.

Lemma cache_neutral_fromJson (s : string) :
  cache_neutral well_formed (Rational.fromJson s).
Proof.
  eapply cache_neutral_bind; [apply cache_neutral_getFromCache|].
  intros cached ->. destruct (Js.split s) as [numerator rest].
  eapply cache_neutral_bind with (P := fun _ => True);
    [apply cache_neutral_lift; intros ? ?; exact I|].
  intros n _.
  eapply cache_neutral_bind with (P := fun _ => True);
    [apply cache_neutral_lift; intros ? ?; exact I|].
  intros d _.
  eapply cache_neutral_bind; [apply cache_neutral_create|].
  intros r Hr.
  eapply cache_neutral_bind; [apply cache_neutral_addToCache|].
  intros _ _. now apply cache_neutral_ret.
Qed.

Section NeutralWithDecimalText.

Context {decimalText : DecimalText}.

Lemma cache_neutral_fromDecimal (decimal : Decimal) :
  cache_neutral well_formed (Rational.fromDecimal decimal).
Proof. apply cache_neutral_interned, cache_neutral_create. Qed.

Lemma cache_neutral_fromNumber (n : Z) :
  cache_neutral well_formed (Rational.fromNumber n).
Proof. apply cache_neutral_interned, cache_neutral_fromDecimal. Qed.

Lemma cache_neutral_R (s : Z + Decimal) :
  cache_neutral well_formed (Rational.R s).
Proof.
  destruct s;
    [apply cache_neutral_fromNumber | apply cache_neutral_fromDecimal].
Qed.

Lemma cache_neutral_fromString (s : string) :
  cache_neutral well_formed (Rational.fromString s).
Proof.
  eapply cache_neutral_bind; [apply cache_neutral_getFromCache|].
  intros cached ->. destruct (Js.split s) as [numeratorString rest].
  eapply cache_neutral_bind with (P := fun _ => True);
    [apply cache_neutral_lift; intros ? ?; exact I|].
  intros d1 _.
  eapply cache_neutral_bind; [apply cache_neutral_fromDecimal|].
  intros r1 Hr1.
  eapply cache_neutral_bind with (P := well_formed).
  - destruct (Js.truthy (hd_error rest)).
    + eapply cache_neutral_bind with (P := fun _ => True);
        [apply cache_neutral_lift; intros ? ?; exact I|].
      intros d2 _.
      eapply cache_neutral_bind; [apply cache_neutral_fromDecimal|].
      intros; apply cache_neutral_div.
    + now apply cache_neutral_ret.
  - intros r Hr.
    eapply cache_neutral_bind; [apply cache_neutral_addToCache|].
    intros _ _. now apply cache_neutral_ret.
Qed.

Lemma cache_neutral_reduce_add (rationals : list Rational) :
  forall result, well_formed result ->
    cache_neutral well_formed (Rational.reduce_add rationals result).
Proof.
  induction rationals as [|r rest IH]; intros result Hres; cbn.
  - now apply cache_neutral_ret.
  - eapply cache_neutral_bind; [apply cache_neutral_add|]. exact IH.
Qed.

Lemma cache_neutral_sum (rationals : list Rational) :
  cache_neutral well_formed (Rational.sum rationals).
Proof. apply cache_neutral_reduce_add, well_formed_ZERO. Qed.

Lemma cache_neutral_avg (rationals : list Rational) :
  cache_neutral well_formed (Rational.avg rationals).
Proof.
  eapply cache_neutral_bind; [apply cache_neutral_sum|]. intros total _.
  eapply cache_neutral_bind; [apply cache_neutral_R|]. intros count _.
  apply cache_neutral_div.
Qed.

End NeutralWithDecimalText.

(** ** Sorting *)

Lemma insert_perm (a : Rational) (l : list Rational) :
  Permutation (a :: l) (Rational.insert a l).
Proof.
  induction l as [|b l IH]; cbn; [reflexivity|].
  destruct (Rational.cmp a b <=? 0); [reflexivity|].
  rewrite perm_swap. now apply perm_skip.
Qed.

Lemma sort_perm (l : list Rational) : Permutation l (Rational.sort l).
Proof.
  induction l as [|a l IH]; cbn; [reflexivity|].
  rewrite <- insert_perm. now apply perm_skip.
Qed.

Lemma sort_length (l : list Rational) :
  List.length (Rational.sort l) = List.length l.
Proof. symmetry. apply Permutation_length, sort_perm. Qed.

Lemma well_formed_at_index (l : list Rational) (i : Z) :
  Forall well_formed l -> well_formed (Rational.at_index l i).
Proof.
  intros Hl. unfold Rational.at_index.
  destruct (nth_in_or_default (Z.to_nat i) l Rational.ZERO) as [Hin | ->].
  - rewrite Forall_forall in Hl. now apply Hl.
  - apply well_formed_ZERO.
Qed.

Lemma well_formed_sort (l : list Rational) :
  Forall well_formed l -> Forall well_formed (Rational.sort l).
Proof. intros Hl. eapply Permutation_Forall; [apply sort_perm | exact Hl]. Qed.

Lemma cache_neutral_median {decimalText : DecimalText} (l : list Rational) :
  Forall well_formed l -> cache_neutral well_formed (Rational.median l).
Proof.
  intros Hl. unfold Rational.median.
  destruct (negb (Z.of_nat (List.length l) =? 0)); [|apply cache_neutral_throw].
  cbv zeta. destruct (negb (Z.land _ 1 =? 0)).
  - apply cache_neutral_ret, well_formed_at_index, well_formed_sort, Hl.
  - apply cache_neutral_avg.
Qed.

Lemma returns_only_reduce (P : Rational -> Prop) f (l : list Rational) :
  (forall a b, P a -> P b -> P (f a b)) ->
  Forall P l -> returns_only P (Rational.reduce f l).
Proof.
  intros Hf Hl r E. destruct l as [|first rest]; [discriminate|].
  cbn in E. inversion E; subst r; clear E.
  inversion Hl as [|? ? Hfirst Hrest]; subst. clear Hl.
  revert first Hfirst.
  induction Hrest as [|x rest Hx Hrest IH]; intros first Hfirst.
  - exact Hfirst.
  - cbn. apply IH. now apply Hf.
Qed.

Lemma returns_only_min (l : list Rational) :
  Forall well_formed l -> returns_only well_formed (Rational.min l).
Proof.
  apply returns_only_reduce. intros a b Ha Hb. now destruct (Rational.lt a b).
Qed.

Lemma returns_only_max (l : list Rational) :
  Forall well_formed l -> returns_only well_formed (Rational.max l).
Proof.
  apply returns_only_reduce. intros a b Ha Hb. now destruct (Rational.gt a b).
Qed.

(** ** Canonical form of every result *)

Lemma well_formed_value_one (r : Rational) :
  well_formed r ->
  (Qeq (value r) 1 <-> numerator r = 1 /\ denominator r = 1).
Proof.
  intros ((Hg & Hd) & _). unfold value, Qeq. cbn.
  rewrite Z2Pos.id by lia. split.
  - intros E. assert (numerator r = denominator r) as En by lia.
    rewrite En, Z.gcd_abs_l, Z.gcd_diag in Hg. lia.
  - intros [-> ->]. reflexivity.
Qed.

(** C1, as the code has it: every public operation that returns a Rational
    returns one in canonical form (gcd(|numerator|, denominator) = 1 and
    denominator >= 1), the value 0 is returned only as the instance ZERO,
    and the value 1 is returned with numerator 1 and denominator 1.  The
    operations that hand back one of their arguments (abs, min, max,
    median) do so for arguments that are themselves results.  The cache is
    empty before and unchanged after. *)
Theorem results_are_canonical {decimalText : DecimalText}
  (a b : Rational) (rationals : list Rational)
  (s : string) (n : Z) (decimal : Decimal) (method : bigint.RoundMethod) :
  well_formed a ->
  Forall well_formed rationals ->
  (cache_neutral well_formed (Rational.fromJson s) /\
   cache_neutral well_formed (Rational.fromString s) /\
   cache_neutral well_formed (Rational.fromNumber n) /\
   cache_neutral well_formed (Rational.fromDecimal decimal) /\
   cache_neutral well_formed (Rational.R (inl n)) /\
   cache_neutral well_formed (Rational.R (inr decimal))) /\
  (cache_neutral well_formed (Rational.add a b) /\
   cache_neutral well_formed (Rational.sub a b) /\
   cache_neutral well_formed (Rational.mul a b) /\
   cache_neutral well_formed (Rational.div a b) /\
   cache_neutral well_formed (Rational.negated a) /\
   cache_neutral well_formed (Rational.abs a) /\
   cache_neutral well_formed (Rational.inverted a) /\
   cache_neutral well_formed (Rational.roundByRational a b method)) /\
  (returns_only well_formed (Rational.min rationals) /\
   returns_only well_formed (Rational.max rationals) /\
   cache_neutral well_formed (Rational.sum rationals) /\
   cache_neutral well_formed (Rational.avg rationals) /\
   cache_neutral well_formed (Rational.median rationals)) /\
  (forall r, well_formed r ->
     Z.gcd (Z.abs (numerator r)) (denominator r) = 1 /\
     1 <= denominator r /\
     (numerator r = 0 -> r = Rational.ZERO) /\
     (Qeq (value r) 1 -> numerator r = 1 /\ denominator r = 1)).
Proof.
  intros Ha Hl. split; [|split; [|split]].
  - repeat apply conj.
    + apply cache_neutral_fromJson.
    + apply cache_neutral_fromString.
    + apply cache_neutral_fromNumber.
    + apply cache_neutral_fromDecimal.
    + apply cache_neutral_R.
    + apply cache_neutral_R.
  - repeat apply conj.
    + apply cache_neutral_add.
    + apply cache_neutral_sub.
    + apply cache_neutral_mul.
    + apply cache_neutral_div.
    + apply cache_neutral_negated.
    + now apply cache_neutral_abs.
    + apply cache_neutral_inverted.
    + apply cache_neutral_roundByRational.
  - repeat apply conj.
    + now apply returns_only_min.
    + now apply returns_only_max.
    + apply cache_neutral_sum.
    + apply cache_neutral_avg.
    + now apply cache_neutral_median.
  - intros r Hr. pose proof (well_formed_value_one r Hr) as Hone.
    destruct Hr as ((Hg & Hd) & Hz & _).
    repeat apply conj; try assumption. apply Hone.
Qed.

Lemma results_are_canonical_witness :
  well_formed (Rational.new (-1) 2) /\
  Forall well_formed [Rational.ONE; Rational.ZERO] /\
  cache_neutral well_formed (Rational.abs (Rational.new (-1) 2)) /\
  returns_only well_formed (Rational.min [Rational.ONE; Rational.ZERO]).
Proof.
  assert (well_formed (Rational.new (-1) 2)) as Ha.
  { repeat split; cbn; try lia; discriminate. }
  assert (Forall well_formed [Rational.ONE; Rational.ZERO]) as Hl.
  { repeat constructor; cbn; try lia; discriminate. }
  pose proof (results_are_canonical (decimalText := integer_numerals)
                (Rational.new (-1) 2) Rational.ONE
                [Rational.ONE; Rational.ZERO] "1/2" 1 (D 1) bigint.toZero
                Ha Hl) as (_ & (_ & _ & _ & _ & _ & Habs & _) & (Hmin & _) & _).
  exact (conj Ha (conj Hl (conj Habs Hmin))).
Defined.

(** C1, the part that fails: [fromJson("1/1")] returns the value 1 as a new
    object with numerator 1 and denominator 1, which is not the instance
    ONE. *)
Lemma one_is_not_the_ONE_instance :
  exists r,
    Rational.fromJson "1/1" initial_store = (Ok r, initial_store) /\
    numerator r = 1 /\ denominator r = 1 /\
    r <> Rational.ONE.
Proof.
  exists (Rational.new 1 1). repeat split. discriminate.
Qed.

(** ** Construction with a denominator that is not positive *)

(** C3, as the code has it: with a denominator <= 0, [create] fails with
    InvalidOperand for every numerator other than 0, and returns ZERO for
    the numerator 0, whatever the cache holds. *)
Theorem create_denominator_not_positive (n d : Z) (st : store) :
  d <= 0 ->
  Rational.create n d st =
  (if n =? 0 then Ok Rational.ZERO else Err InvalidOperand, st).
Proof.
  intros Hd. unfold Rational.create.
  destruct (n =? 0); [reflexivity|]. cbn [negb].
  destruct (Z.leb_spec d 0); [reflexivity | lia].
Qed.

Lemma create_denominator_not_positive_witness :
  0 <= 0 /\
  Rational.create 5 0 initial_store = (Err InvalidOperand, initial_store).
Proof.
  split; [lia|].
  apply (create_denominator_not_positive 5 0 initial_store). lia.
Defined.

(** C3, the part that fails: the numerator 0 with the denominator 0 is
    accepted and gives ZERO. *)
Lemma create_zero_over_zero :
  Rational.create 0 0 initial_store = (Ok Rational.ZERO, initial_store) /\
  fst (Rational.create 0 0 initial_store) <> Err InvalidOperand.
Proof. split; [reflexivity | discriminate]. Qed.

(** ** Inversion *)

Lemma well_formed_not_ZERO (a : Rational) :
  well_formed a -> numerator a <> 0 -> Rational.is_ZERO a = false.
Proof.
  intros (_ & _ & Hz & _) Hn. unfold Rational.is_ZERO.
  destruct (identity a) eqn:E; try reflexivity.
  specialize (Hz eq_refl). subst a. now contradiction Hn.
Qed.

Lemma well_formed_is_ZERO (a : Rational) :
  well_formed a -> numerator a = 0 -> Rational.is_ZERO a = true.
Proof. intros (_ & Hz & _) Hn. now rewrite (Hz Hn). Qed.


Lemma inverted_zero (a : Rational) (st : store) :
  well_formed a -> numerator a = 0 ->
  Rational.inverted a st = (Err DivisionByZero, st).
Proof.
  intros Ha Hn. unfold Rational.inverted.
  now rewrite (well_formed_is_ZERO a Ha Hn).
Qed.



(** ** Average of no arguments *)

(** C9: [avg()] with no arguments fails with DivisionByZero, the error of
    inverting zero, and not with EmptyInput: the sum of no arguments is
    ZERO, the count 0 becomes ZERO, and the division inverts it. *)
Theorem avg_of_nothing {decimalText : DecimalText} (st : store) :
  cache st = [] ->
  Rational.sum [] st = (Ok Rational.ZERO, st) /\
  Rational.R (inl (Z.of_nat (List.length (@nil Rational)))) st
  = (Ok Rational.ZERO, st) /\
  Rational.avg [] st = (Err DivisionByZero, st) /\
  DivisionByZero <> EmptyInput.
Proof.
  intros Hst. destruct st as [c h]. cbn in Hst. subst c.
  repeat split. discriminate.
Qed.

Lemma avg_of_nothing_witness :
  cache initial_store = [] /\
  Rational.avg (decimalText := integer_numerals) [] initial_store
  = (Err DivisionByZero, initial_store).
Proof.
  split; [reflexivity|].
  apply (avg_of_nothing (decimalText := integer_numerals) initial_store).
  reflexivity.
Defined.

(** ** The JSON form *)

(** [fromJson] with a missing lookup: two calls of [BigInt], on the first
    field and on the second, and [create] on their results. *)
Lemma fromJson_miss (s : string) (st : store) :
  cache st = [] ->
  Rational.fromJson s st =
  (n <- lift (Js.BigInt (Some (fst (Js.split s)))) ;;
   d <- lift (Js.BigInt (hd_error (snd (Js.split s)))) ;;
   Rational.create n d) st.
Proof.
  intros Hst. unfold Rational.fromJson.
  unfold bind at 1. rewrite (getFromCache_miss _ _ Hst).
  destruct (Js.split s) as [numerator rest]. cbn [fst snd].
  rewrite !bind_lift.
  destruct (Js.BigInt (Some numerator)) as [n|]; [|reflexivity].
  rewrite !bind_lift.
  destruct (Js.BigInt (hd_error rest)) as [d|]; [|reflexivity].
  apply bind_intern.
Qed.

Lemma fromJson_fields (s1 s2 : string) (st : store) :
  all_chars not_slash s1 = true ->
  all_chars not_slash s2 = true ->
  cache st = [] ->
  Rational.fromJson (s1 ++ "/" ++ s2) st =
  (n <- lift (Js.BigInt (Some s1)) ;;
   d <- lift (Js.BigInt (Some s2)) ;;
   Rational.create n d) st.
Proof.
  intros H1 H2 Hst. rewrite (fromJson_miss _ _ Hst).
  change (s1 ++ "/" ++ s2) with (s1 ++ String "/" s2).
  rewrite (split_app_slash _ _ H1), (split_no_slash _ H2). reflexivity.
Qed.

Lemma fromJson_integers (n d : Z) (st : store) :
  cache st = [] ->
  Rational.fromJson (Js.toString n ++ "/" ++ Js.toString d) st =
  Rational.create n d st.
Proof.
  intros Hst.
  rewrite fromJson_fields by (try apply toString_no_slash; assumption).
  rewrite bind_lift, BigInt_toString.
  now rewrite bind_lift, BigInt_toString.
Qed.

Lemma fromJson_one_field (s : string) (st : store) :
  all_chars not_slash s = true ->
  cache st = [] ->
  exists exn, Rational.fromJson s st = (Err exn, st).
Proof.
  intros Hs Hst. rewrite (fromJson_miss _ _ Hst).
  rewrite (split_no_slash _ Hs). cbn [fst snd hd_error].
  rewrite bind_lift. destruct (Js.BigInt (Some s)) as [n | exn].
  - exists TypeError. reflexivity.
  - exists exn. reflexivity.
Qed.

Lemma fromJson_tail_ignored (s1 s2 tail : string) (st : store) :
  all_chars not_slash s1 = true ->
  all_chars not_slash s2 = true ->
  cache st = [] ->
  Rational.fromJson (s1 ++ "/" ++ s2 ++ "/" ++ tail) st
  = Rational.fromJson (s1 ++ "/" ++ s2) st.
Proof.
  intros H1 H2 Hst. rewrite !(fromJson_miss _ _ Hst).
  change (s1 ++ "/" ++ s2 ++ "/" ++ tail)
    with (s1 ++ String "/" (s2 ++ String "/" tail)).
  change (s1 ++ "/" ++ s2) with (s1 ++ String "/" s2).
  rewrite !(split_app_slash _ _ H1), (split_app_slash _ _ H2).
  rewrite (split_no_slash _ H2). reflexivity.
Qed.

(** C2, as the code has it: for every canonical Rational [x],
    [fromJson(x.json)] returns a Rational with the numerator and the
    denominator of [x]; [json] is the numerator, a slash and the
    denominator, also when the denominator is 1; [fromJson] parses the
    field before the first slash and the field after it, each as an
    integer through [BigInt], and passes them to [create]: it reads back
    the two integers of every JSON form and fails on an input without a
    slash, but whatever follows a second slash is ignored. *)
Theorem fromJson_json (x : Rational) (st : store) :
  canonical x ->
  cache st = [] ->
  Rational.json x
  = Js.toString (numerator x) ++ "/" ++ Js.toString (denominator x) /\
  (denominator x = 1 ->
     Rational.json x = Js.toString (numerator x) ++ "/1") /\
  (exists r,
     Rational.fromJson (Rational.json x) st = (Ok r, st) /\
     numerator r = numerator x /\ denominator r = denominator x) /\
  (forall s1 s2,
     all_chars not_slash s1 = true -> all_chars not_slash s2 = true ->
     Rational.fromJson (s1 ++ "/" ++ s2) st =
     (n <- lift (Js.BigInt (Some s1)) ;;
      d <- lift (Js.BigInt (Some s2)) ;;
      Rational.create n d) st) /\
  (forall s1 s2 tail,
     all_chars not_slash s1 = true -> all_chars not_slash s2 = true ->
     Rational.fromJson (s1 ++ "/" ++ s2 ++ "/" ++ tail) st
     = Rational.fromJson (s1 ++ "/" ++ s2) st) /\
  (forall n d,
     Rational.fromJson (Js.toString n ++ "/" ++ Js.toString d) st =
     Rational.create n d st) /\
  (forall s, all_chars not_slash s = true ->
     exists exn, Rational.fromJson s st = (Err exn, st)).
Proof.
  intros [Hg Hd] Hst. split_ands.
  - reflexivity.
  - intros E. unfold Rational.json. now rewrite E.
  - unfold Rational.json. rewrite (fromJson_integers _ _ _ Hst).
    destruct (Z.eq_dec (numerator x) 0) as [Hz | Hnz].
    + rewrite Hz in *. cbn in Hg. rewrite Z.abs_eq in Hg by lia.
      exists Rational.ZERO. rewrite Hg. repeat split.
    + exists (Rational.new (numerator x) (denominator x)).
      rewrite create_reduced; try assumption; try lia.
      * repeat split.
      * now rewrite <- Z.gcd_abs_l.
  - intros s1 s2 H1 H2. now apply fromJson_fields.
  - intros s1 s2 tail H1 H2. now apply fromJson_tail_ignored.
  - intros n d. now apply fromJson_integers.
  - intros s Hs. now apply fromJson_one_field.
Qed.

Lemma fromJson_json_witness :
  canonical (Rational.new (-7) 3) /\
  cache initial_store = [] /\
  exists r,
    Rational.fromJson (Rational.json (Rational.new (-7) 3)) initial_store
    = (Ok r, initial_store) /\
    numerator r = -7 /\ denominator r = 3.
Proof.
  assert (canonical (Rational.new (-7) 3)) as Hx by (split; cbn; lia).
  split; [exact Hx|]. split; [reflexivity|].
  apply (fromJson_json (Rational.new (-7) 3) initial_store Hx eq_refl).
Defined.

(** C2, the part that fails: [fromJson] does not insist on exactly two
    integers separated by a slash.  It accepts a third field, which it
    ignores, an empty field, which [BigInt] reads as 0, white space around
    a field and a radix prefix. *)
Lemma fromJson_not_exactly_two_integers :
  Rational.fromJson "1/2/3" initial_store
  = (Ok (Rational.new 1 2), initial_store) /\
  Rational.fromJson "/3" initial_store
  = (Ok Rational.ZERO, initial_store) /\
  Rational.fromJson " 4 / 6 " initial_store
  = (Ok (Rational.new 2 3), initial_store) /\
  Rational.fromJson "0x10/2" initial_store
  = (Ok (Rational.new 8 1), initial_store).
Proof. repeat split. Qed.

(** ** A trailing slash in [fromString] *)

Section FromString.

Context {decimalText : DecimalText}.

Lemma fromDecimal_miss (decimal : Decimal) (st : store) :
  cache st = [] ->
  Rational.fromDecimal decimal st =
  Rational.create
    (bigint.e (significand decimal)
       (if exponent decimal >? 0 then exponent decimal else 0) bigint.toZero)
    (bigint.e 1
       (if exponent decimal <? 0 then - exponent decimal else 0)
       bigint.toZero) st.
Proof.
  intros Hst. unfold Rational.fromDecimal.
  unfold bind at 1. rewrite (getFromCache_miss _ _ Hst). apply bind_intern.
Qed.

(** [fromDecimal] never throws. *)
Lemma fromDecimal_total (decimal : Decimal) (st : store) :
  cache st = [] ->
  exists r, Rational.fromDecimal decimal st = (Ok r, st) /\ well_formed r.
Proof.
  intros Hst. destruct (cache_neutral_fromDecimal decimal st Hst)
    as (res & E & Hres).
  rewrite E. rewrite (fromDecimal_miss _ _ Hst), create_miss in E by assumption.
  destruct res as [r | exn]; [eauto|]. exfalso.
  destruct (_ =? 0); [discriminate|].
  match type of E with context [?d <=? 0] =>
    destruct (Z.leb_spec d 0) as [Hle | Hgt]; [|discriminate] end.
  revert Hle. unfold bigint.e.
  assert (0 < 10 ^ (if exponent decimal <? 0 then - exponent decimal else 0)).
  { apply Z.pow_pos_nonneg; [lia|].
    destruct (Z.ltb_spec (exponent decimal) 0); lia. }
  destruct (0 <=? _) eqn:E0; [lia|].
  destruct (Z.ltb_spec (exponent decimal) 0); lia.
Qed.

Lemma fromString_one_field (s : string) (rest : list string) (st : store) :
  Js.split s = (fst (Js.split s), rest) ->
  Js.truthy (hd_error rest) = false ->
  cache st = [] ->
  Rational.fromString s st =
  (decimal <- lift (Decimal_fromString (fst (Js.split s))) ;;
   Rational.fromDecimal decimal) st.
Proof.
  intros Hsplit Hfalsy Hst. unfold Rational.fromString.
  unfold bind at 1. rewrite (getFromCache_miss _ _ Hst).
  rewrite Hsplit. cbv zeta. rewrite Hfalsy, !bind_lift.
  destruct (Decimal_fromString _) as [decimal|]; [|reflexivity].
  unfold bind. destruct (Rational.fromDecimal decimal st) as [[r|] st'];
    reflexivity.
Qed.

End FromString.

(** ** Comparison *)

Lemma value_compare (a b : Rational) :
  0 < denominator a -> 0 < denominator b ->
  Qcompare (value a) (value b)
  = (numerator a * denominator b ?= numerator b * denominator a).
Proof.
  intros Ha Hb. unfold Qcompare, value. cbn [Qnum Qden].
  now rewrite !Z2Pos.id by assumption.
Qed.

Lemma cmp_cross (a b : Rational) :
  0 < denominator a -> 0 < denominator b ->
  Rational.cmp a b
  = sign_of (numerator a * denominator b ?= numerator b * denominator a).
Proof.
  intros Ha Hb. unfold Rational.cmp, Rational.negative.
  set (x := numerator a * denominator b).
  set (y := numerator b * denominator a).
  assert (sign_of (x ?= y) = if x <? y then -1 else if x >? y then 1 else 0)
    as Hsame.
  { rewrite Z.gtb_ltb.
    destruct (Z.compare_spec x y), (Z.ltb_spec x y), (Z.ltb_spec y x);
      try lia; reflexivity. }
  destruct (Z.ltb_spec (numerator a) 0) as [Hna | Hna];
    destruct (Z.ltb_spec (numerator b) 0) as [Hnb | Hnb]; cbn [Bool.eqb].
  - now rewrite Hsame.
  - assert (x < y) as L by (subst x y; nia).
    apply Z.compare_lt_iff in L. now rewrite L.
  - assert (y < x) as G by (subst x y; nia).
    apply Z.compare_gt_iff in G. now rewrite G.
  - now rewrite Hsame.
Qed.

Lemma cmp_value (a b : Rational) :
  0 < denominator a -> 0 < denominator b ->
  Rational.cmp a b = sign_of (Qcompare (value a) (value b)).
Proof. intros Ha Hb. now rewrite value_compare, cmp_cross. Qed.

Lemma eq_value (a b : Rational) :
  0 < denominator a -> 0 < denominator b ->
  (Rational.eq a b = true <-> Qeq (value a) (value b)).
Proof.
  intros Ha Hb. unfold Rational.eq. rewrite (cmp_value a b Ha Hb).
  rewrite Qeq_alt. destruct (Qcompare (value a) (value b)); cbn;
    split; intros H; try reflexivity; discriminate.
Qed.

(** The value of what [create] returns. *)
Lemma create_value (n d : Z) (st : store) :
  cache st = [] -> 0 < d ->
  exists r,
    Rational.create n d st = (Ok r, st) /\ well_formed r /\
    Qeq (value r) (Qmake n (Z.to_pos d)).
Proof.
  intros Hst Hd. rewrite (create_miss n d st Hst).
  destruct (Z.eqb_spec n 0) as [-> | Hn].
  - exists Rational.ZERO.
    split; [reflexivity | split; [apply well_formed_ZERO | reflexivity]].
  - destruct (Z.leb_spec d 0); [lia|].
    exists (Rational.new (n / Z.gcd n d) (d / Z.gcd n d)).
    split; [reflexivity | split; [now apply well_formed_new |]].
    assert (0 < Z.gcd n d) as Hg.
    { pose proof (Z.gcd_nonneg n d).
      assert (Z.gcd n d <> 0) by (intros E; apply Z.gcd_eq_0_l in E; lia).
      lia. }
    destruct (Z.gcd_divide_l n d) as [kn Hkn].
    destruct (Z.gcd_divide_r n d) as [kd Hkd].
    assert (n / Z.gcd n d = kn) as En
      by (rewrite Hkn at 1; apply Z.div_mul; lia).
    assert (d / Z.gcd n d = kd) as Ed
      by (rewrite Hkd at 1; apply Z.div_mul; lia).
    unfold value, Qeq, Rational.new. cbn [numerator denominator Qnum Qden].
    rewrite En, Ed. rewrite !Z2Pos.id by nia.
    clear En Ed. revert Hg Hkn Hkd. generalize (Z.gcd n d).
    intros g Hg -> ->. ring.
Qed.

(** C8: for Rationals with positive denominators, [cmp] returns -1, 0 or 1
    as the exact value of the first is less than, equal to or greater than
    that of the second: the negative one is smaller when the signs differ,
    and the cross products decide otherwise; [eq] holds exactly for equal
    values, whatever pairs the two were constructed from. *)
Theorem cmp_spec (a b : Rational) (st : store) :
  0 < denominator a ->
  0 < denominator b ->
  cache st = [] ->
  Rational.cmp a b = sign_of (Qcompare (value a) (value b)) /\
  (Rational.cmp a b = -1 <-> Qlt (value a) (value b)) /\
  (Rational.cmp a b = 0 <-> Qeq (value a) (value b)) /\
  (Rational.cmp a b = 1 <-> Qlt (value b) (value a)) /\
  (Rational.negative a <> Rational.negative b ->
     Rational.cmp a b = if Rational.negative a then -1 else 1) /\
  (Rational.negative a = Rational.negative b ->
     Rational.cmp a b
     = sign_of (numerator a * denominator b ?= numerator b * denominator a)) /\
  (Rational.eq a b = true <-> Qeq (value a) (value b)) /\
  (forall n1 d1 n2 d2, 0 < d1 -> 0 < d2 ->
     exists r1 r2,
       Rational.create n1 d1 st = (Ok r1, st) /\
       Rational.create n2 d2 st = (Ok r2, st) /\
       (Rational.eq r1 r2 = true <-> n1 * d2 = n2 * d1)).
Proof.
  intros Ha Hb Hst. pose proof (cmp_value a b Ha Hb) as Hc.
  split_ands.
  - exact Hc.
  - rewrite Hc, Qlt_alt. destruct (Qcompare (value a) (value b)); cbn;
      split; intros H; solve [reflexivity | discriminate H].
  - rewrite Hc, Qeq_alt. destruct (Qcompare (value a) (value b)); cbn;
      split; intros H; solve [reflexivity | discriminate H].
  - rewrite Hc, Qgt_alt. destruct (Qcompare (value a) (value b)); cbn;
      split; intros H; solve [reflexivity | discriminate H].
  - intros Hs. unfold Rational.cmp.
    destruct (Rational.negative a), (Rational.negative b);
      try reflexivity; now contradiction Hs.
  - intros _. now apply cmp_cross.
  - now apply eq_value.
  - intros n1 d1 n2 d2 H1 H2.
    destruct (create_value n1 d1 st Hst H1) as (r1 & E1 & W1 & V1).
    destruct (create_value n2 d2 st Hst H2) as (r2 & E2 & W2 & V2).
    exists r1, r2. split_ands; try assumption.
    destruct W1 as ((_ & P1) & _), W2 as ((_ & P2) & _).
    rewrite eq_value by lia. rewrite V1, V2. unfold Qeq. cbn [Qnum Qden].
    rewrite !Z2Pos.id by assumption. reflexivity.
Qed.

Lemma cmp_spec_witness :
  0 < denominator (Rational.new 1 2) /\
  0 < denominator (Rational.new 2 3) /\
  cache initial_store = [] /\
  Rational.cmp (Rational.new 1 2) (Rational.new 2 3) = -1 /\
  exists r1 r2,
    Rational.create 1 2 initial_store = (Ok r1, initial_store) /\
    Rational.create 2 4 initial_store = (Ok r2, initial_store) /\
    (Rational.eq r1 r2 = true <-> 1 * 4 = 2 * 2).
Proof.
  assert (0 < denominator (Rational.new 1 2)) as Ha by (cbn; lia).
  assert (0 < denominator (Rational.new 2 3)) as Hb by (cbn; lia).
  pose proof (cmp_spec (Rational.new 1 2) (Rational.new 2 3) initial_store
                Ha Hb eq_refl) as (_ & _ & _ & _ & _ & _ & _ & Hpaths).
  split; [exact Ha|]. split; [exact Hb|]. split; [reflexivity|].
  split; [reflexivity|]. apply (Hpaths 1 2 2 4); lia.
Defined.

(** ** Values of sums and products *)

Lemma well_formed_positive (r : Rational) :
  well_formed r -> 0 < denominator r.
Proof. intros ((_ & H) & _). lia. Qed.

Lemma add_value (a b : Rational) (st : store) :
  0 < denominator a -> 0 < denominator b -> cache st = [] ->
  exists r,
    Rational.add a b st = (Ok r, st) /\ well_formed r /\
    Qeq (value r) (value a + value b).
Proof.
  intros Ha Hb Hst. unfold Rational.add.
  destruct (create_value
              (numerator a * denominator b + numerator b * denominator a)
              (denominator a * denominator b) st Hst) as (r & E & W & V);
    [nia|].
  exists r. split_ands; try assumption.
  rewrite V. unfold Qeq, Qplus, value. cbn [Qnum Qden].
  rewrite Pos2Z.inj_mul, !Z2Pos.id by nia. ring.
Qed.

Lemma mul_value (a b : Rational) (st : store) :
  0 < denominator a -> 0 < denominator b -> cache st = [] ->
  exists r,
    Rational.mul a b st = (Ok r, st) /\ well_formed r /\
    Qeq (value r) (value a * value b).
Proof.
  intros Ha Hb Hst. unfold Rational.mul.
  destruct (create_value (numerator a * numerator b)
              (denominator a * denominator b) st Hst) as (r & E & W & V);
    [nia|].
  exists r. split_ands; try assumption.
  rewrite V. unfold Qeq, Qmult, value. cbn [Qnum Qden].
  rewrite Pos2Z.inj_mul, !Z2Pos.id by nia. ring.
Qed.

Section Average.

Context {decimalText : DecimalText}.

Lemma R_two (st : store) :
  cache st = [] -> Rational.R (inl 2) st = (Ok (Rational.new 2 1), st).
Proof. destruct st as [c h]. cbn [cache]. intros ->. reflexivity. Qed.

Lemma inverted_two (st : store) :
  cache st = [] ->
  Rational.inverted (Rational.new 2 1) st = (Ok (Rational.new 1 2), st).
Proof. destruct st as [c h]. cbn [cache]. intros ->. reflexivity. Qed.

(** The average of two Rationals is half their sum, and is defined. *)
Lemma avg_two (x y : Rational) (st : store) :
  0 < denominator x -> 0 < denominator y -> cache st = [] ->
  exists r,
    Rational.avg [x; y] st = (Ok r, st) /\ well_formed r /\
    Qeq (value r) ((value x + value y) / 2).
Proof.
  intros Hx Hy Hst.
  destruct (add_value Rational.ZERO x st) as (s1 & E1 & W1 & V1);
    [reflexivity | assumption | assumption |].
  destruct (add_value s1 y st) as (s2 & E2 & W2 & V2);
    [now apply well_formed_positive | assumption | assumption |].
  destruct (mul_value s2 (Rational.new 1 2) st) as (r & E & W & V);
    [now apply well_formed_positive | reflexivity | assumption |].
  exists r. split_ands; try assumption.
  - unfold Rational.avg, Rational.sum. cbn [Rational.reduce_add List.length].
    unfold bind at 1. unfold bind at 1. rewrite E1.
    unfold bind at 1. rewrite E2. unfold ret at 1.
    unfold bind at 1. change (Z.of_nat 2) with 2. rewrite (R_two st Hst).
    unfold Rational.div, bind. now rewrite (inverted_two st Hst).
  - rewrite V, V2, V1. unfold Rational.ZERO, Rational.new, value.
    cbn [numerator denominator]. unfold Qeq, Qdiv, Qmult, Qplus, Qinv.
    cbn. ring.
Qed.

End Average.

(** ** The sorted list *)

Lemma cmp_le_value (a b : Rational) :
  0 < denominator a -> 0 < denominator b ->
  (Rational.cmp a b <= 0 <-> Qle (value a) (value b)).
Proof.
  intros Ha Hb. rewrite (cmp_value a b Ha Hb), Qle_alt.
  destruct (Qcompare (value a) (value b)); cbn; split; intros H;
    try lia; try discriminate. now contradiction H.
Qed.

Lemma insert_sorted (a : Rational) (l : list Rational) :
  0 < denominator a ->
  Forall (fun r => 0 < denominator r) l ->
  StronglySorted (fun x y => Rational.cmp x y <= 0) l ->
  StronglySorted (fun x y => Rational.cmp x y <= 0) (Rational.insert a l).
Proof.
  intros Ha Hl Hs. induction Hs as [|b l Hs IH Hb]; cbn [Rational.insert].
  - constructor; constructor.
  - inversion Hl as [|? ? Pb Pl]; subst.
    destruct (Z.leb_spec (Rational.cmp a b) 0) as [Hle | Hgt].
    + constructor; [now constructor|]. constructor; [exact Hle|].
      rewrite Forall_forall in *. intros c Hc.
      apply cmp_le_value; [assumption | now apply Pl |].
      apply Qle_trans with (value b).
      * now apply cmp_le_value.
      * apply cmp_le_value; [assumption | now apply Pl | now apply Hb].
    + constructor; [now apply IH|].
      eapply Permutation_Forall; [apply insert_perm|].
      constructor; [|exact Hb].
      apply cmp_le_value; [assumption | assumption |].
      assert (~ Qle (value a) (value b)) as Hn.
      { intros Hq. apply cmp_le_value in Hq; [lia | assumption | assumption]. }
      apply Qlt_le_weak, Qnot_le_lt, Hn.
Qed.

Lemma sort_sorted (l : list Rational) :
  Forall (fun r => 0 < denominator r) l ->
  StronglySorted (fun x y => Rational.cmp x y <= 0) (Rational.sort l).
Proof.
  induction 1 as [|a l Ha Hl IH]; cbn [Rational.sort fold_right].
  - constructor.
  - apply insert_sorted; [assumption | | exact IH].
    eapply Permutation_Forall; [apply sort_perm | exact Hl].
Qed.

Lemma shiftr_half (n : nat) :
  Z.to_nat (Z.shiftr (Z.of_nat n) 1) = (n / 2)%nat.
Proof.
  rewrite Z.shiftr_div_pow2 by lia. change (2 ^ 1) with (Z.of_nat 2).
  now rewrite <- Nat2Z.inj_div, Nat2Z.id.
Qed.

Lemma land_one_odd (n : nat) :
  negb (Z.land (Z.of_nat n) 1 =? 0) = Nat.odd n.
Proof.
  change 1 with (Z.ones 1) at 1. rewrite Z.land_ones by lia.
  change (2 ^ 1) with 2.
  destruct (Nat.Even_or_Odd n) as [[k ->] | [k ->]].
  - rewrite Nat2Z.inj_mul, Z.mul_comm, Z.mod_mul by lia.
    rewrite <- Nat.negb_even, Nat.even_mul. reflexivity.
  - rewrite Nat2Z.inj_add, Nat2Z.inj_mul, Z.add_comm, Z.mul_comm.
    rewrite Z_mod_plus_full. rewrite Nat.add_comm, Nat.odd_add_mul_2.
    reflexivity.
Qed.

(** ** The median *)

Section Median.

Context {decimalText : DecimalText}.

Lemma median_nonempty (l : list Rational) (st : store) :
  l <> [] ->
  Rational.median l st =
  if Nat.odd (List.length l)
  then (Ok (nth (List.length l / 2) (Rational.sort l) Rational.ZERO), st)
  else Rational.avg
         [nth (List.length l / 2 - 1) (Rational.sort l) Rational.ZERO;
          nth (List.length l / 2) (Rational.sort l) Rational.ZERO] st.
Proof.
  intros Hl. unfold Rational.median.
  assert ((Z.of_nat (List.length l) =? 0) = false) as E0.
  { destruct l; [contradiction|]. cbn [List.length]. apply Z.eqb_neq. lia. }
  rewrite E0. cbn [negb]. cbv zeta. rewrite sort_length, land_one_odd.
  unfold Rational.at_index.
  rewrite Z2Nat.inj_sub, shiftr_half by lia. change (Z.to_nat 1) with 1%nat.
  destruct (Nat.odd (List.length l)); reflexivity.
Qed.

(** C7: [median] fails with EmptyInput exactly for the empty argument
    list; otherwise it sorts the arguments by [cmp] and returns the
    middle one when their count is odd and the [avg] of the two middle
    ones, which is half their sum, when it is even. *)
Theorem median_spec (rationals : list Rational) (st : store) :
  Forall well_formed rationals ->
  cache st = [] ->
  let sorted := Rational.sort rationals in
  let count := List.length rationals in
  (Rational.median rationals st = (Err EmptyInput, st) <-> rationals = []) /\
  Permutation rationals sorted /\
  StronglySorted (fun a b => Rational.cmp a b <= 0) sorted /\
  (Nat.odd count = true ->
     exists middle,
       nth_error sorted (count / 2) = Some middle /\
       Rational.median rationals st = (Ok middle, st)) /\
  (rationals <> [] -> Nat.odd count = false ->
     exists lower upper r,
       nth_error sorted (count / 2 - 1) = Some lower /\
       nth_error sorted (count / 2) = Some upper /\
       Rational.median rationals st = Rational.avg [lower; upper] st /\
       Rational.avg [lower; upper] st = (Ok r, st) /\
       Qeq (value r) ((value lower + value upper) / 2)).
Proof.
  intros Hwf Hst sorted count.
  assert (Forall (fun r => 0 < denominator r) rationals) as Hpos.
  { eapply Forall_impl; [|exact Hwf]. apply well_formed_positive. }
  assert (Forall (fun r => 0 < denominator r) sorted) as Hpos'.
  { eapply Permutation_Forall; [apply sort_perm | exact Hpos]. }
  assert (forall i, (i < count)%nat ->
            nth_error sorted i = Some (nth i sorted Rational.ZERO) /\
            0 < denominator (nth i sorted Rational.ZERO)) as Hnth.
  { intros i Hi. split.
    - apply nth_error_nth'. subst sorted. now rewrite sort_length.
    - rewrite Forall_forall in Hpos'. apply Hpos', nth_In.
      subst sorted. now rewrite sort_length. }
  assert (rationals <> [] -> Nat.odd count = false ->
          exists lower upper r,
            nth_error sorted (count / 2 - 1) = Some lower /\
            nth_error sorted (count / 2) = Some upper /\
            Rational.median rationals st = Rational.avg [lower; upper] st /\
            Rational.avg [lower; upper] st = (Ok r, st) /\
            Qeq (value r) ((value lower + value upper) / 2)) as Heven.
  { intros Hne Hodd.
    assert (0 < count)%nat as Hc.
    { subst count. destruct rationals; [contradiction | cbn; lia]. }
    assert (count / 2 < count)%nat as Hhalf by (apply Nat.div_lt; lia).
    destruct (Hnth (count / 2 - 1)%nat) as [El Pl]; [lia|].
    destruct (Hnth (count / 2)%nat) as [Eu Pu]; [lia|].
    destruct (avg_two _ _ st Pl Pu Hst) as (r & Er & _ & Vr).
    eexists _, _, r. split_ands; try eassumption.
    rewrite (median_nonempty _ _ Hne). fold count. now rewrite Hodd. }
  split_ands.
  - split.
    + intros E. destruct rationals as [|x l]; [reflexivity|]. exfalso.
      assert (x :: l <> []) as Hne by discriminate.
      destruct (Nat.odd count) eqn:Hodd.
      * rewrite (median_nonempty _ _ Hne) in E. fold count in E.
        rewrite Hodd in E. discriminate E.
      * destruct (Heven Hne eq_refl) as (lo & up & r & _ & _ & Em & Ea & _).
        rewrite Em, Ea in E. discriminate E.
    + intros ->. reflexivity.
  - apply sort_perm.
  - now apply sort_sorted.
  - intros Hodd.
    assert (rationals <> []) as Hne.
    { intros ->. discriminate Hodd. }
    assert (0 < count)%nat as Hc.
    { subst count. destruct rationals; [contradiction | cbn; lia]. }
    destruct (Hnth (count / 2)%nat) as [Em _]; [apply Nat.div_lt; lia|].
    eexists. split; [exact Em|].
    rewrite (median_nonempty _ _ Hne). fold count. now rewrite Hodd.
  - exact Heven.
Qed.

End Median.

Lemma median_spec_witness :
  Forall well_formed [Rational.new 3 1; Rational.new 1 1; Rational.new 2 1] /\
  cache initial_store = [] /\
  exists middle,
    nth_error
      (Rational.sort [Rational.new 3 1; Rational.new 1 1; Rational.new 2 1])
      1 = Some middle /\
    Rational.median (decimalText := integer_numerals)
      [Rational.new 3 1; Rational.new 1 1; Rational.new 2 1] initial_store
    = (Ok middle, initial_store).
Proof.
  assert (Forall well_formed
            [Rational.new 3 1; Rational.new 1 1; Rational.new 2 1]) as Hwf.
  { repeat constructor; cbn; try lia; discriminate. }
  split; [exact Hwf|]. split; [reflexivity|].
  apply (median_spec (decimalText := integer_numerals)
           [Rational.new 3 1; Rational.new 1 1; Rational.new 2 1]
           initial_store Hwf eq_refl).
  reflexivity.
Defined.

(** The scenario of the specification: the median of 1, 2 and 3, each made
    by [fromNumber], is 2. *)
Example median_1_2_3 :
  (one <- Rational.fromNumber (decimalText := integer_numerals) 1 ;;
   two <- Rational.fromNumber (decimalText := integer_numerals) 2 ;;
   three <- Rational.fromNumber (decimalText := integer_numerals) 3 ;;
   Rational.median (decimalText := integer_numerals) [one; two; three])
    initial_store
  = (Ok (Rational.new 2 1), initial_store).
Proof. reflexivity. Qed.

(** ** The interning cache *)

Lemma key_eqb_refl (k : key) : key_eqb k k = true.
Proof. destruct k; cbn; [apply String.eqb_refl | apply Z.eqb_refl]. Qed.

Lemma get_set_same (k : key) (v : Rational) (m : JsMap.t) :
  JsMap.get k (JsMap.set k v m) = Some v.
Proof.
  induction m as [|[k' v'] m IH]; cbn.
  - now rewrite key_eqb_refl.
  - destruct (key_eqb k k') eqn:E; cbn.
    + now rewrite key_eqb_refl.
    + now rewrite E.
Qed.

(** What the statements after the [return] would do: the entry is in the
    cache when they are through. *)
Lemma addToCache_after_return_inserts (rational : Rational) (k : key)
  (st : store) :
  JsMap.get k (cache (Rational.addToCache_after_return rational k st))
  = Some rational.
Proof.
  unfold Rational.addToCache_after_return. cbn [cache]. apply get_set_same.
Qed.

(** And at the high-water mark: the keys of the recency set are moved to
    the most recent position, the recency set is cleared and the 2^12
    oldest entries are dropped before the insertion. *)
Lemma addToCache_after_return_evicts (rational : Rational) (k : key)
  (st : store) :
  JsMap.size (cache st) = 2 ^ 16 ->
  Rational.addToCache_after_return rational k st =
  mkStore
    (JsMap.set k rational
       (JsMap.delete_oldest (Z.to_nat (2 ^ 12))
          (fold_left (fun c entry => JsMap.set (fst entry) (snd entry)
                                       (JsMap.delete (fst entry) c))
                     (cacheHits st) (cache st))))
    [].
Proof.
  intros Hsize. unfold Rational.addToCache_after_return.
  apply Z.eqb_eq in Hsize. now rewrite Hsize.
Qed.

(** The call itself changes nothing: a lookup after it finds what a lookup
    before it found. *)
Lemma addToCache_changes_nothing (rational : Rational) (k : key) (st : store) :
  snd (Rational.addToCache rational k st) = st.
Proof. reflexivity. Qed.

(** C5, at an input where the code departs from it: after
    [addToCache(1/2, "1/2")] on the empty cache the cache is still empty,
    and [getFromCache("1/2")] returns null. *)
Theorem addToCache_inserts_nothing :
  let rational := Rational.new 1 2 in
  let k := key_string "1/2" in
  let st := snd (Rational.addToCache rational k initial_store) in
  st = initial_store /\
  JsMap.get k (cache st) = None /\
  Rational.getFromCache k st = (Ok None, st) /\
  JsMap.get k
    (cache (Rational.addToCache_after_return rational k initial_store))
  = Some rational.
Proof. repeat split. Qed.

(** ** Rounding to significant digits *)

Lemma roundToSignificants_ZERO (n : Z) (method : bigint.RoundMethod) :
  Rational.roundToSignificants Rational.ZERO n method = Decimal_ZERO.
Proof. reflexivity. Qed.

(** C6, at an input where the code departs from it: 99 rounded to one
    significant digit away from zero, to nearest or up is the decimal
    10 * 10^1, whose significand has two digits; toward zero it is
    9 * 10^1. *)
Theorem roundToSignificants_carry :
  let ninety_nine := Rational.new 99 1 in
  Rational.roundToSignificants ninety_nine 1 bigint.awayFromZero
  = mkDecimal 10 1 /\
  Rational.roundToSignificants ninety_nine 1 bigint.nearest = mkDecimal 10 1 /\
  Rational.roundToSignificants ninety_nine 1 bigint.ceiling = mkDecimal 10 1 /\
  Rational.roundToSignificants ninety_nine 1 bigint.toZero = mkDecimal 9 1 /\
  digit_count 10 = 2 /\
  digit_count 9 = 1.
Proof. repeat split. Qed.

(** ** Digit counts, and rounding toward zero *)

Lemma length_app (a b : string) :
  String.length (a ++ b) = (String.length a + String.length b)%nat.
Proof. induction a as [|c a IH]; cbn; [reflexivity | now rewrite IH]. Qed.

Lemma digits_of_bounds (fuel : nat) : forall n,
  0 < n < 10 ^ Z.of_nat fuel ->
  let len := Z.of_nat (String.length (Js.digits_of fuel n "")) in
  1 <= len /\ 10 ^ (len - 1) <= n < 10 ^ len.
Proof.
  induction fuel as [|fuel IH]; intros n Hn; [cbn in Hn; lia|].
  cbn [Js.digits_of]. destruct (Z.ltb_spec n 10) as [Hlt | Hge].
  - cbn. lia.
  - rewrite digits_of_acc, length_app. cbn [String.length].
    rewrite Nat2Z.inj_succ, Z.pow_succ_r in Hn by lia.
    assert (0 < n / 10 < 10 ^ Z.of_nat fuel) as Hq.
    { split; [apply Z.div_str_pos; lia | apply Z.div_lt_upper_bound; lia]. }
    specialize (IH (n / 10) Hq). cbv zeta in IH.
    set (len := Z.of_nat (String.length (Js.digits_of fuel (n / 10) ""))) in *.
    destruct IH as (Hlen & Hlo & Hhi).
    rewrite Nat2Z.inj_add. fold len. change (Z.of_nat 1) with 1.
    replace (len + 1 - 1) with (Z.succ (len - 1)) by lia.
    replace (len + 1) with (Z.succ len) by lia.
    rewrite !Z.pow_succ_r by lia.
    pose proof (Z.div_mod n 10). pose proof (Z.mod_pos_bound n 10).
    split; [lia|]. split; lia.
Qed.

Lemma digits_bounds (n : Z) :
  0 < n ->
  let len := Z.of_nat (String.length (Js.digits n)) in
  1 <= len /\ 10 ^ (len - 1) <= n < 10 ^ len.
Proof.
  intros Hn. apply digits_of_bounds.
  split; [assumption | apply digits_fuel; lia].
Qed.

Lemma digit_count_bounds (z : Z) :
  z <> 0 ->
  1 <= digit_count z /\
  10 ^ (digit_count z - 1) <= Z.abs z < 10 ^ digit_count z.
Proof. intros Hz. apply digits_bounds. lia. Qed.

(** The digit count is the only [k] with [10^(k-1) <= |z| < 10^k]. *)
Lemma digit_count_unique (z k : Z) :
  1 <= k -> 10 ^ (k - 1) <= Z.abs z < 10 ^ k -> digit_count z = k.
Proof.
  intros Hk [Hlo Hhi].
  assert (z <> 0) as Hz.
  { intros ->. cbn in Hlo. pose proof (Z.pow_pos_nonneg 10 (k - 1)). lia. }
  destruct (digit_count_bounds z Hz) as (Hc & Hclo & Hchi).
  assert (10 ^ (digit_count z - 1) < 10 ^ k) as H1 by lia.
  assert (10 ^ (k - 1) < 10 ^ digit_count z) as H2 by lia.
  apply Z.pow_lt_mono_r_iff in H1; [|lia|lia].
  apply Z.pow_lt_mono_r_iff in H2; [|lia|lia].
  lia.
Qed.

(** The length that [roundToSignificants] measures. *)
Lemma toString_length (z : Z) :
  Z.of_nat (String.length (Js.toString z)) - (if z <? 0 then 1 else 0)
  = digit_count z.
Proof.
  unfold Js.toString, digit_count. destruct (Z.ltb_spec z 0).
  - cbn [String.length]. rewrite Z.abs_neq by lia. lia.
  - rewrite Z.abs_eq by lia. lia.
Qed.

(** With the default method, truncation toward zero, the significand that
    [roundToSignificants] returns for a nonzero Rational has exactly the
    requested number of digits. *)
Lemma roundToSignificants_toZero (a : Rational) (n : Z) :
  well_formed a -> numerator a <> 0 -> 1 <= n ->
  digit_count (significand (Rational.roundToSignificants a n bigint.toZero))
  = n.
Proof.
  intros Ha Hnum Hn. unfold Rational.roundToSignificants.
  rewrite (well_formed_not_ZERO a Ha Hnum). cbv zeta.
  destruct Ha as ((_ & Hden) & _).
  rewrite !toString_length.
  replace (Z.of_nat (String.length (Js.toString (denominator a))))
    with (digit_count (denominator a))
    by (rewrite <- (toString_length (denominator a));
        destruct (Z.ltb_spec (denominator a) 0); lia).
  destruct (digit_count_bounds (denominator a)) as (Hdl & _ & Hdhi); [lia|].
  rewrite Z.abs_eq in Hdhi by lia.
  set (dl := digit_count (denominator a)) in *.
  set (d := denominator a) in *.
  cbn [significand Decimal_fromBigInt]. unfold bigint.e, bigint.divide.
  assert ((0 <=? n + dl) = true) as -> by (apply Z.leb_le; lia).
  set (q := Z.quot (numerator a * 10 ^ (n + dl)) d).
  assert (10 ^ n <= Z.abs q) as Hq.
  { subst q. rewrite <- Z.quot_abs by lia. rewrite (Z.abs_eq d) by lia.
    rewrite Z.quot_div_nonneg by lia.
    apply Z.div_le_lower_bound; [lia|].
    rewrite Z.abs_mul, (Z.abs_eq (10 ^ _)) by (apply Z.pow_nonneg; lia).
    rewrite Z.pow_add_r by lia.
    assert (0 < 10 ^ n) as Hpn by (apply Z.pow_pos_nonneg; lia).
    assert (1 <= Z.abs (numerator a)) as Habs by lia.
    assert (d * 10 ^ n <= 10 ^ n * 10 ^ dl) as H1
      by (rewrite Z.mul_comm; apply Z.mul_le_mono_nonneg_l; lia).
    assert (1 * (10 ^ n * 10 ^ dl)
            <= Z.abs (numerator a) * (10 ^ n * 10 ^ dl)) as H2
      by (apply Z.mul_le_mono_nonneg_r; lia).
    lia. }
  assert (q <> 0) as Hq0.
  { assert (0 < 10 ^ n) by (apply Z.pow_pos_nonneg; lia). lia. }
  destruct (digit_count_bounds q Hq0) as (Hl & Hlo & Hhi).
  set (len := digit_count q) in *.
  assert (n < len) as Hlen.
  { assert (10 ^ n < 10 ^ len) as H by lia.
    apply Z.pow_lt_mono_r_iff in H; lia. }
  assert ((0 <=? - (len - n)) = false) as -> by (apply Z.leb_gt; lia).
  replace (- - (len - n)) with (len - n) by lia.
  assert (0 < 10 ^ (len - n)) as Hp by (apply Z.pow_pos_nonneg; lia).
  apply digit_count_unique; [assumption|].
  rewrite <- Z.quot_abs by lia. rewrite (Z.abs_eq (10 ^ _)) by lia.
  rewrite Z.quot_div_nonneg by lia.
  assert (10 ^ (len - 1) = 10 ^ (n - 1) * 10 ^ (len - n)) as E1.
  { rewrite <- Z.pow_add_r by lia. f_equal. lia. }
  assert (10 ^ len = 10 ^ n * 10 ^ (len - n)) as E2.
  { rewrite <- Z.pow_add_r by lia. f_equal. lia. }
  split.
  - apply Z.div_le_lower_bound; [assumption|]. lia.
  - apply Z.div_lt_upper_bound; [assumption|]. lia.
Qed.

(** ** The scenarios of the specification, evaluated *)

Example one_third_plus_one_sixth :
  (a <- Rational.fromString (decimalText := integer_numerals) "1/3" ;;
   b <- Rational.fromString (decimalText := integer_numerals) "1/6" ;;
   Rational.add a b) initial_store
  = (Ok (Rational.new 1 2), initial_store).
Proof. reflexivity. Qed.

Example five_inverted :
  (a <- Rational.fromString (decimalText := integer_numerals) "5/1" ;;
   Rational.inverted a) initial_store
  = (Ok (Rational.new 1 5), initial_store).
Proof. reflexivity. Qed.

Example ten_quarters_to_two_places :
  (a <- Rational.fromString (decimalText := integer_numerals) "10/4" ;;
   ret (Rational.roundToDecimal a 2 bigint.toZero)) initial_store
  = (Ok (mkDecimal 250 (-2)), initial_store).
Proof. reflexivity. Qed.

Example minus_three_ninths_string :
  (a <- Rational.fromString (decimalText := integer_numerals) "-3/9" ;;
   ret (Rational.string_ a)) initial_store
  = (Ok "-1/3", initial_store).
Proof. reflexivity. Qed.

Example one_half_equals_two_quarters :
  (a <- Rational.fromString (decimalText := integer_numerals) "1/2" ;;
   b <- Rational.fromString (decimalText := integer_numerals) "2/4" ;;
   ret (Rational.eq a b)) initial_store
  = (Ok true, initial_store).
Proof. reflexivity. Qed.

Example denominator_zero :
  Rational.fromJson "1/0" initial_store = (Err InvalidOperand, initial_store).
Proof. reflexivity. Qed.

Example fromJson_third_field_ignored :
  Rational.fromJson "1/2/3" initial_store
  = (Ok (Rational.new 1 2), initial_store).
Proof. reflexivity. Qed.

Example fromJson_no_decimal_parsing :
  Rational.fromJson "1.5/2" initial_store = (Err MalformedInput, initial_store).
Proof. reflexivity. Qed.

Example fromJson_single_field :
  Rational.fromJson "5" initial_store = (Err TypeError, initial_store).
Proof. reflexivity. Qed.

(** * Further properties *)

(** ** Uniqueness of the canonical form *)

Lemma well_formed_same_fields (a b : Rational) :
  well_formed a -> well_formed b -> Qeq (value a) (value b) ->
  numerator a = numerator b /\ denominator a = denominator b.
Proof.
  intros ((Hga & Hda) & _) ((Hgb & Hdb) & _) E.
  unfold Qeq, value in E. cbn [Qnum Qden] in E.
  rewrite !Z2Pos.id in E by lia.
  rewrite Z.gcd_abs_l in Hga, Hgb.
  assert (denominator a = denominator b) as Ed.
  { apply Z.divide_antisym_nonneg; try lia.
    - apply Z.gauss with (m := numerator a).
      + exists (numerator b). lia.
      + now rewrite Z.gcd_comm.
    - apply Z.gauss with (m := numerator b).
      + exists (numerator a). lia.
      + now rewrite Z.gcd_comm. }
  split; [|exact Ed]. rewrite Ed in E. nia.
Qed.

Lemma well_formed_same (a b : Rational) :
  well_formed a -> well_formed b ->
  identity a <> static_ONE -> identity b <> static_ONE ->
  Qeq (value a) (value b) -> a = b.
Proof.
  intros Wa Wb Ia Ib E.
  destruct (well_formed_same_fields a b Wa Wb E) as [En Ed].
  destruct Wa as (_ & Za & Sa & _), Wb as (_ & Zb & Sb & _).
  destruct a as [na da ia], b as [nb db ib]. cbn in *. subst nb db.
  destruct ia, ib; try reflexivity; try contradiction.
  - specialize (Sa eq_refl). inversion Sa; subst.
    specialize (Zb eq_refl). discriminate Zb.
  - specialize (Sb eq_refl). inversion Sb; subst.
    specialize (Za eq_refl). discriminate Za.
Qed.

Lemma evaluates_to_same (m1 m2 : M Rational) (st : store) (q1 q2 : Q) :
  evaluates_to m1 st q1 -> evaluates_to m2 st q2 -> Qeq q1 q2 ->
  m1 st = m2 st.
Proof.
  intros (r1 & E1 & W1 & I1 & V1) (r2 & E2 & W2 & I2 & V2) E.
  rewrite E1, E2. do 2 f_equal. apply well_formed_same; try assumption.
  now rewrite V1, V2.
Qed.

Lemma evaluates_to_bind (m : M Rational) (k : Rational -> M Rational)
  (a : Rational) (st : store) (q : Q) :
  m st = (Ok a, st) -> evaluates_to (k a) st q -> evaluates_to (bind m k) st q.
Proof.
  intros Em (r & E & H). exists r. split; [|exact H].
  unfold bind. now rewrite Em.
Qed.

Lemma evaluates_to_value (m : M Rational) (st : store) (q1 q2 : Q) :
  Qeq q1 q2 -> evaluates_to m st q1 -> evaluates_to m st q2.
Proof.
  intros E (r & Er & W & I & V). exists r. split_ands; try assumption.
  now rewrite V.
Qed.

Lemma evaluates_to_positive (m : M Rational) (st : store) (q : Q) :
  evaluates_to m st q ->
  exists r, m st = (Ok r, st) /\ 0 < denominator r /\ Qeq (value r) q.
Proof.
  intros (r & E & W & _ & V). exists r. split_ands; try assumption.
  now apply well_formed_positive.
Qed.

Lemma create_evaluates (n d : Z) (st : store) :
  cache st = [] -> 0 < d ->
  evaluates_to (Rational.create n d) st (Qmake n (Z.to_pos d)).
Proof.
  intros Hst Hd. destruct (create_value n d st Hst Hd) as (r & E & W & V).
  exists r. split_ands; try assumption.
  rewrite (create_miss n d st Hst) in E.
  destruct (n =? 0); [inversion E; discriminate|].
  destruct (d <=? 0); [discriminate|]. inversion E. discriminate.
Qed.

Lemma add_evaluates (a b : Rational) (st : store) :
  0 < denominator a -> 0 < denominator b -> cache st = [] ->
  evaluates_to (Rational.add a b) st (value a + value b).
Proof.
  intros Ha Hb Hst. unfold Rational.add.
  eapply evaluates_to_value; [|apply create_evaluates; [assumption | nia]].
  unfold Qeq, Qplus, value. cbn [Qnum Qden].
  rewrite Pos2Z.inj_mul, !Z2Pos.id by nia. ring.
Qed.

Lemma mul_evaluates (a b : Rational) (st : store) :
  0 < denominator a -> 0 < denominator b -> cache st = [] ->
  evaluates_to (Rational.mul a b) st (value a * value b).
Proof.
  intros Ha Hb Hst. unfold Rational.mul.
  eapply evaluates_to_value; [|apply create_evaluates; [assumption | nia]].
  unfold Qeq, Qmult, value. cbn [Qnum Qden].
  rewrite Pos2Z.inj_mul, !Z2Pos.id by nia. ring.
Qed.

Lemma negated_evaluates (a : Rational) (st : store) :
  0 < denominator a -> cache st = [] ->
  evaluates_to (Rational.negated a) st (- value a).
Proof.
  intros Ha Hst. unfold Rational.negated.
  eapply evaluates_to_value; [|apply create_evaluates; assumption].
  reflexivity.
Qed.

Lemma inverted_evaluates (a : Rational) (st : store) :
  well_formed a -> numerator a <> 0 -> cache st = [] ->
  evaluates_to (Rational.inverted a) st (/ value a).
Proof.
  intros Wa Hn Hst. pose proof (well_formed_positive a Wa) as Hd.
  unfold Rational.inverted. rewrite (well_formed_not_ZERO a Wa Hn).
  eapply evaluates_to_value;
    [|apply create_evaluates; [assumption | unfold bigint.abs; lia]].
  unfold Rational.negative, bigint.abs, Qeq, Qinv, value. cbn [Qnum Qden].
  assert (exists dp, denominator a = Z.pos dp) as [dp ->]
    by (exists (Z.to_pos (denominator a)); rewrite Z2Pos.id; lia).
  destruct (numerator a) as [|p|p]; [contradiction | |]; cbn; lia.
Qed.

Lemma evaluates_to_then (m : M Rational) (k : Rational -> M Rational)
  (st : store) (q q' : Q) :
  evaluates_to m st q ->
  (forall r, well_formed r -> Qeq (value r) q -> evaluates_to (k r) st q') ->
  evaluates_to (bind m k) st q'.
Proof.
  intros (r & E & W & _ & V) Hk.
  apply evaluates_to_bind with (a := r); [exact E | now apply Hk].
Qed.

Lemma evaluates_to_result (m : M Rational) (st : store) (q : Q) :
  evaluates_to m st q ->
  exists r, m st = (Ok r, st) /\ well_formed r /\ Qeq (value r) q.
Proof. intros (r & E & W & _ & V). eauto. Qed.

(** ** Construction by value *)

Lemma create_same_iff (n1 d1 n2 d2 : Z) (st : store) :
  cache st = [] -> 0 < d1 -> 0 < d2 ->
  (Rational.create n1 d1 st = Rational.create n2 d2 st
   <-> n1 * d2 = n2 * d1).
Proof.
  intros Hst H1 H2.
  pose proof (create_evaluates n1 d1 st Hst H1) as E1.
  pose proof (create_evaluates n2 d2 st Hst H2) as E2.
  assert (Qeq (Qmake n1 (Z.to_pos d1)) (Qmake n2 (Z.to_pos d2))
          <-> n1 * d2 = n2 * d1) as Hq.
  { unfold Qeq. cbn [Qnum Qden]. now rewrite !Z2Pos.id by assumption. }
  split.
  - intros E. apply Hq.
    destruct E1 as (r1 & Er1 & _ & _ & V1), E2 as (r2 & Er2 & _ & _ & V2).
    rewrite Er1, Er2 in E. inversion E; subst r2. now rewrite <- V1, <- V2.
  - intros E. apply (evaluates_to_same _ _ st _ _ E1 E2). now apply Hq.
Qed.

(** X1: with an empty cache and positive denominators, [create] returns
    the same Rational for two pairs exactly when the pairs denote the same
    fraction. *)
Theorem create_same_value (n1 d1 n2 d2 : Z) (st : store) :
  cache st = [] -> 0 < d1 -> 0 < d2 ->
  (Rational.create n1 d1 st = Rational.create n2 d2 st
   <-> n1 * d2 = n2 * d1).
Proof. apply create_same_iff. Qed.

Lemma create_same_value_witness :
  cache initial_store = [] /\ 0 < 4 /\ 0 < 2 /\
  Rational.create 2 4 initial_store = Rational.create 1 2 initial_store.
Proof.
  split; [reflexivity|]. split; [lia|]. split; [lia|].
  apply (create_same_value 2 4 1 2 initial_store); [reflexivity | lia | lia|].
  reflexivity.
Defined.

(** X2: two Rationals in canonical form are equal by [eq] exactly when
    they have the same numerator and the same denominator. *)
Theorem eq_same_fields (a b : Rational) :
  well_formed a -> well_formed b ->
  (Rational.eq a b = true
   <-> numerator a = numerator b /\ denominator a = denominator b).
Proof.
  intros Wa Wb.
  rewrite eq_value by now apply well_formed_positive.
  split.
  - now apply well_formed_same_fields.
  - intros [En Ed]. unfold Qeq, value. cbn [Qnum Qden]. now rewrite En, Ed.
Qed.

Lemma eq_same_fields_witness :
  well_formed (Rational.new 2 3) /\ well_formed (Rational.new 2 3) /\
  Rational.eq (Rational.new 2 3) (Rational.new 2 3) = true.
Proof.
  assert (well_formed (Rational.new 2 3)) as W.
  { repeat split; cbn; try lia; discriminate. }
  split; [exact W|]. split; [exact W|].
  apply (eq_same_fields (Rational.new 2 3) (Rational.new 2 3) W W).
  split; reflexivity.
Defined.

(** ** Exact arithmetic *)

(** X3: [add] of two Rationals with positive denominators never fails, its
    result is canonical and has the sum of the two values, and the order of
    the operands does not matter. *)
Theorem add_exact (a b : Rational) (st : store) :
  0 < denominator a -> 0 < denominator b -> cache st = [] ->
  (exists r,
     Rational.add a b st = (Ok r, st) /\ well_formed r /\
     Qeq (value r) (value a + value b)) /\
  Rational.add a b st = Rational.add b a st.
Proof.
  intros Ha Hb Hst. split.
  - now apply evaluates_to_result, add_evaluates.
  - unfold Rational.add. f_equal; ring.
Qed.

Lemma add_exact_witness :
  0 < denominator (Rational.new 1 3) /\ 0 < denominator (Rational.new 1 6) /\
  cache initial_store = [] /\
  exists r,
    Rational.add (Rational.new 1 3) (Rational.new 1 6) initial_store
    = (Ok r, initial_store) /\ well_formed r /\
    Qeq (value r) (value (Rational.new 1 3) + value (Rational.new 1 6)).
Proof.
  split; [cbn; lia|]. split; [cbn; lia|]. split; [reflexivity|].
  apply (add_exact (Rational.new 1 3) (Rational.new 1 6) initial_store);
    [cbn; lia | cbn; lia | reflexivity].
Defined.

(** X4: [add] is associative: adding [c] to the sum of [a] and [b] returns
    the same Rational as adding the sum of [b] and [c] to [a]. *)
Theorem add_associative (a b c : Rational) (st : store) :
  0 < denominator a -> 0 < denominator b -> 0 < denominator c ->
  cache st = [] ->
  (ab <- Rational.add a b ;; Rational.add ab c) st
  = (bc <- Rational.add b c ;; Rational.add a bc) st.
Proof.
  intros Ha Hb Hc Hst.
  apply evaluates_to_same
    with (q1 := ((value a + value b) + value c)%Q)
         (q2 := (value a + (value b + value c))%Q).
  - eapply evaluates_to_then; [now apply add_evaluates|].
    intros r W V. eapply evaluates_to_value;
      [|apply add_evaluates; [now apply well_formed_positive | | ]];
      [now rewrite V | assumption | assumption].
  - eapply evaluates_to_then; [now apply add_evaluates|].
    intros r W V. eapply evaluates_to_value;
      [|apply add_evaluates; [ | now apply well_formed_positive | ]];
      [now rewrite V | assumption | assumption].
  - symmetry. apply Qplus_assoc.
Qed.

Lemma add_associative_witness :
  0 < denominator (Rational.new 1 2) /\ 0 < denominator (Rational.new 1 3) /\
  0 < denominator (Rational.new 1 6) /\ cache initial_store = [] /\
  (ab <- Rational.add (Rational.new 1 2) (Rational.new 1 3) ;;
   Rational.add ab (Rational.new 1 6)) initial_store
  = (bc <- Rational.add (Rational.new 1 3) (Rational.new 1 6) ;;
     Rational.add (Rational.new 1 2) bc) initial_store.
Proof.
  split; [cbn; lia|]. split; [cbn; lia|]. split; [cbn; lia|].
  split; [reflexivity|].
  apply (add_associative (Rational.new 1 2) (Rational.new 1 3)
           (Rational.new 1 6) initial_store);
    [cbn; lia | cbn; lia | cbn; lia | reflexivity].
Defined.

(** X5: [mul] of two Rationals with positive denominators never fails, its
    result is canonical and has the product of the two values, and the
    order of the operands does not matter. *)
Theorem mul_exact (a b : Rational) (st : store) :
  0 < denominator a -> 0 < denominator b -> cache st = [] ->
  (exists r,
     Rational.mul a b st = (Ok r, st) /\ well_formed r /\
     Qeq (value r) (value a * value b)) /\
  Rational.mul a b st = Rational.mul b a st.
Proof.
  intros Ha Hb Hst. split.
  - now apply evaluates_to_result, mul_evaluates.
  - unfold Rational.mul. f_equal; ring.
Qed.

Lemma mul_exact_witness :
  0 < denominator (Rational.new 2 3) /\ 0 < denominator (Rational.new 3 4) /\
  cache initial_store = [] /\
  exists r,
    Rational.mul (Rational.new 2 3) (Rational.new 3 4) initial_store
    = (Ok r, initial_store) /\ well_formed r /\
    Qeq (value r) (value (Rational.new 2 3) * value (Rational.new 3 4)).
Proof.
  split; [cbn; lia|]. split; [cbn; lia|]. split; [reflexivity|].
  apply (mul_exact (Rational.new 2 3) (Rational.new 3 4) initial_store);
    [cbn; lia | cbn; lia | reflexivity].
Defined.

(** X6: [mul] is associative and distributes over [add]: the two ways of
    computing each side return the same Rational. *)
Theorem mul_associative_distributive (a b c : Rational) (st : store) :
  0 < denominator a -> 0 < denominator b -> 0 < denominator c ->
  cache st = [] ->
  (ab <- Rational.mul a b ;; Rational.mul ab c) st
  = (bc <- Rational.mul b c ;; Rational.mul a bc) st /\
  (bc <- Rational.add b c ;; Rational.mul a bc) st
  = (ab <- Rational.mul a b ;;
     ac <- Rational.mul a c ;;
     Rational.add ab ac) st.
Proof.
  intros Ha Hb Hc Hst. split.
  - apply evaluates_to_same
      with (q1 := ((value a * value b) * value c)%Q)
           (q2 := (value a * (value b * value c))%Q).
    + eapply evaluates_to_then; [now apply mul_evaluates|].
      intros r W V. eapply evaluates_to_value;
        [|apply mul_evaluates; [now apply well_formed_positive | | ]];
        [now rewrite V | assumption | assumption].
    + eapply evaluates_to_then; [now apply mul_evaluates|].
      intros r W V. eapply evaluates_to_value;
        [|apply mul_evaluates; [ | now apply well_formed_positive | ]];
        [now rewrite V | assumption | assumption].
    + symmetry. apply Qmult_assoc.
  - apply evaluates_to_same
      with (q1 := (value a * (value b + value c))%Q)
           (q2 := (value a * value b + value a * value c)%Q).
    + eapply evaluates_to_then; [now apply add_evaluates|].
      intros r W V. eapply evaluates_to_value;
        [|apply mul_evaluates; [ | now apply well_formed_positive | ]];
        [now rewrite V | assumption | assumption].
    + eapply evaluates_to_then; [now apply mul_evaluates|].
      intros r1 W1 V1.
      eapply evaluates_to_then; [now apply mul_evaluates|].
      intros r2 W2 V2. eapply evaluates_to_value;
        [|apply add_evaluates;
          [now apply well_formed_positive | now apply well_formed_positive
           | assumption]].
      now rewrite V1, V2.
    + apply Qmult_plus_distr_r.
Qed.

Lemma mul_associative_distributive_witness :
  0 < denominator (Rational.new 1 2) /\ 0 < denominator (Rational.new 2 3) /\
  0 < denominator (Rational.new 3 5) /\ cache initial_store = [] /\
  (ab <- Rational.mul (Rational.new 1 2) (Rational.new 2 3) ;;
   Rational.mul ab (Rational.new 3 5)) initial_store
  = (bc <- Rational.mul (Rational.new 2 3) (Rational.new 3 5) ;;
     Rational.mul (Rational.new 1 2) bc) initial_store.
Proof.
  split; [cbn; lia|]. split; [cbn; lia|]. split; [cbn; lia|].
  split; [reflexivity|].
  apply (mul_associative_distributive (Rational.new 1 2) (Rational.new 2 3)
           (Rational.new 3 5) initial_store);
    [cbn; lia | cbn; lia | cbn; lia | reflexivity].
Defined.

Lemma ret_evaluates (r : Rational) (st : store) :
  well_formed r -> identity r <> static_ONE ->
  evaluates_to (ret r) st (value r).
Proof. intros W I. exists r. split_ands; try assumption; reflexivity. Qed.

Lemma sub_evaluates (a b : Rational) (st : store) :
  0 < denominator a -> 0 < denominator b -> cache st = [] ->
  evaluates_to (Rational.sub a b) st (value a - value b).
Proof.
  intros Ha Hb Hst. unfold Rational.sub.
  eapply evaluates_to_then; [now apply negated_evaluates|].
  intros r W V. eapply evaluates_to_value;
    [|apply add_evaluates; [ | now apply well_formed_positive | ]];
    [now rewrite V | assumption | assumption].
Qed.

Lemma div_evaluates (a b : Rational) (st : store) :
  0 < denominator a -> well_formed b -> numerator b <> 0 -> cache st = [] ->
  evaluates_to (Rational.div a b) st (value a / value b).
Proof.
  intros Ha Wb Hb Hst. unfold Rational.div.
  eapply evaluates_to_then; [now apply inverted_evaluates|].
  intros r W V. eapply evaluates_to_value;
    [|apply mul_evaluates; [ | now apply well_formed_positive | ]];
    [unfold Qdiv; now rewrite V | assumption | assumption].
Qed.

Lemma value_nonzero (a : Rational) :
  numerator a <> 0 -> ~ Qeq (value a) (inject_Z 0).
Proof. unfold Qeq, value. cbn [Qnum Qden inject_Z]. lia. Qed.

(** X7: [sub] of two Rationals with positive denominators never fails and
    has the difference of the two values; a Rational minus itself is the
    instance ZERO. *)
Theorem sub_exact (a b : Rational) (st : store) :
  0 < denominator a -> 0 < denominator b -> cache st = [] ->
  (exists r,
     Rational.sub a b st = (Ok r, st) /\ well_formed r /\
     Qeq (value r) (value a - value b)) /\
  Rational.sub a a st = (Ok Rational.ZERO, st).
Proof.
  intros Ha Hb Hst. split.
  - now apply evaluates_to_result, sub_evaluates.
  - change (Ok Rational.ZERO, st) with (ret Rational.ZERO st).
    apply evaluates_to_same
      with (q1 := (value a - value a)%Q) (q2 := value Rational.ZERO).
    + now apply sub_evaluates.
    + apply ret_evaluates; [apply well_formed_ZERO | discriminate].
    + unfold Qminus. rewrite Qplus_opp_r. reflexivity.
Qed.

Lemma sub_exact_witness :
  0 < denominator (Rational.new 5 7) /\ 0 < denominator (Rational.new 1 7) /\
  cache initial_store = [] /\
  Rational.sub (Rational.new 5 7) (Rational.new 5 7) initial_store
  = (Ok Rational.ZERO, initial_store).
Proof.
  split; [cbn; lia|]. split; [cbn; lia|]. split; [reflexivity|].
  apply (sub_exact (Rational.new 5 7) (Rational.new 1 7) initial_store);
    [cbn; lia | cbn; lia | reflexivity].
Defined.

(** X8: [div] by a nonzero Rational never fails and has the quotient of
    the two values. *)
Theorem div_exact (a b : Rational) (st : store) :
  0 < denominator a -> well_formed b -> numerator b <> 0 -> cache st = [] ->
  exists r,
    Rational.div a b st = (Ok r, st) /\ well_formed r /\
    Qeq (value r) (value a / value b).
Proof.
  intros Ha Wb Hb Hst. now apply evaluates_to_result, div_evaluates.
Qed.

Lemma div_exact_witness :
  0 < denominator (Rational.new 1 2) /\ well_formed (Rational.new (-3) 4) /\
  numerator (Rational.new (-3) 4) <> 0 /\ cache initial_store = [] /\
  exists r,
    Rational.div (Rational.new 1 2) (Rational.new (-3) 4) initial_store
    = (Ok r, initial_store) /\ well_formed r /\
    Qeq (value r) (value (Rational.new 1 2) / value (Rational.new (-3) 4)).
Proof.
  assert (well_formed (Rational.new (-3) 4)) as W.
  { repeat split; cbn; try lia; discriminate. }
  split; [cbn; lia|]. split; [exact W|]. split; [cbn; lia|].
  split; [reflexivity|].
  apply (div_exact (Rational.new 1 2) (Rational.new (-3) 4) initial_store);
    [cbn; lia | exact W | cbn; lia | reflexivity].
Defined.

(** X9: a nonzero Rational divided by itself, and multiplied by its
    inverse, is the Rational with numerator 1 and denominator 1. *)
Theorem div_self (a : Rational) (st : store) :
  well_formed a -> numerator a <> 0 -> cache st = [] ->
  Rational.div a a st = (Ok (Rational.new 1 1), st) /\
  (i <- Rational.inverted a ;; Rational.mul a i) st
  = (Ok (Rational.new 1 1), st).
Proof.
  intros Wa Hn Hst.
  assert (Rational.div a a st = (Ok (Rational.new 1 1), st)) as E.
  { change (Ok (Rational.new 1 1), st) with (ret (Rational.new 1 1) st).
    apply evaluates_to_same
      with (q1 := (value a / value a)%Q) (q2 := value (Rational.new 1 1)).
    - apply div_evaluates; try assumption. now apply well_formed_positive.
    - apply ret_evaluates; [|discriminate].
      repeat split; cbn; try lia; discriminate.
    - unfold Qdiv. rewrite Qmult_inv_r by now apply value_nonzero.
      reflexivity. }
  split; exact E.
Qed.

Lemma div_self_witness :
  well_formed (Rational.new (-3) 4) /\ numerator (Rational.new (-3) 4) <> 0 /\
  cache initial_store = [] /\
  Rational.div (Rational.new (-3) 4) (Rational.new (-3) 4) initial_store
  = (Ok (Rational.new 1 1), initial_store).
Proof.
  assert (well_formed (Rational.new (-3) 4)) as W.
  { repeat split; cbn; try lia; discriminate. }
  split; [exact W|]. split; [cbn; lia|]. split; [reflexivity|].
  apply (div_self (Rational.new (-3) 4) initial_store);
    [exact W | cbn; lia | reflexivity].
Defined.

(** X10: [negated] never fails for a positive denominator and has the
    opposite value; negating twice gives back the numerator and the
    denominator of a canonical Rational. *)
Theorem negated_exact (a : Rational) (st : store) :
  well_formed a -> cache st = [] ->
  (exists r,
     Rational.negated a st = (Ok r, st) /\ well_formed r /\
     Qeq (value r) (- value a)) /\
  (exists r,
     (n <- Rational.negated a ;; Rational.negated n) st = (Ok r, st) /\
     numerator r = numerator a /\ denominator r = denominator a).
Proof.
  intros Wa Hst. pose proof (well_formed_positive a Wa) as Ha. split.
  - now apply evaluates_to_result, negated_evaluates.
  - assert (evaluates_to (n <- Rational.negated a ;; Rational.negated n) st
              (- - value a)) as H.
    { eapply evaluates_to_then; [now apply negated_evaluates|].
      intros r W V. eapply evaluates_to_value;
        [|apply negated_evaluates; [now apply well_formed_positive|]];
        [now rewrite V | assumption]. }
    destruct H as (r & E & W & _ & V). exists r. split; [exact E|].
    apply well_formed_same_fields; try assumption.
    rewrite V. apply Qopp_involutive.
Qed.

Lemma negated_exact_witness :
  well_formed (Rational.new 2 3) /\ cache initial_store = [] /\
  exists r,
    Rational.negated (Rational.new 2 3) initial_store
    = (Ok r, initial_store) /\ well_formed r /\
    Qeq (value r) (- value (Rational.new 2 3)).
Proof.
  assert (well_formed (Rational.new 2 3)) as W.
  { repeat split; cbn; try lia; discriminate. }
  split; [exact W|]. split; [reflexivity|].
  apply (negated_exact (Rational.new 2 3) initial_store W eq_refl).
Defined.

(** X11: [abs] of a canonical Rational never fails and returns the
    Rational with the absolute value of the numerator and the same
    denominator, which is not negative. *)
Theorem abs_exact (a : Rational) (st : store) :
  well_formed a -> cache st = [] ->
  exists r,
    Rational.abs a st = (Ok r, st) /\
    numerator r = Z.abs (numerator a) /\
    denominator r = denominator a /\
    Rational.negative r = false.
Proof.
  intros Wa Hst. unfold Rational.abs, Rational.negative.
  destruct (Z.ltb_spec (numerator a) 0) as [Hneg | Hpos].
  - destruct Wa as ((Hg & Hd) & _). unfold Rational.negated.
    rewrite create_reduced; try assumption; try lia.
    + exists (Rational.new (- numerator a) (denominator a)).
      cbn [numerator denominator Rational.new].
      split_ands; [reflexivity | lia | reflexivity | apply Z.ltb_ge; lia].
    + now rewrite Z.gcd_opp_l, <- Z.gcd_abs_l.
  - exists a. split_ands; [reflexivity | lia | reflexivity |].
    apply Z.ltb_ge. lia.
Qed.

Lemma abs_exact_witness :
  well_formed (Rational.new (-2) 3) /\ cache initial_store = [] /\
  exists r,
    Rational.abs (Rational.new (-2) 3) initial_store = (Ok r, initial_store) /\
    numerator r = Z.abs (numerator (Rational.new (-2) 3)) /\
    denominator r = denominator (Rational.new (-2) 3) /\
    Rational.negative r = false.
Proof.
  assert (well_formed (Rational.new (-2) 3)) as W.
  { repeat split; cbn; try lia; discriminate. }
  split; [exact W|]. split; [reflexivity|].
  apply (abs_exact (Rational.new (-2) 3) initial_store W eq_refl).
Defined.

(** X12: inverting a nonzero canonical Rational twice gives back its
    numerator and its denominator, and the inverse has the inverse
    value. *)
Theorem inverted_involutive (a : Rational) (st : store) :
  well_formed a -> numerator a <> 0 -> cache st = [] ->
  (exists r,
     Rational.inverted a st = (Ok r, st) /\ well_formed r /\
     Qeq (value r) (/ value a)) /\
  (exists r,
     (i <- Rational.inverted a ;; Rational.inverted i) st = (Ok r, st) /\
     numerator r = numerator a /\ denominator r = denominator a).
Proof.
  intros Wa Hn Hst. split.
  - now apply evaluates_to_result, inverted_evaluates.
  - assert (evaluates_to (i <- Rational.inverted a ;; Rational.inverted i) st
              (/ / value a)) as H.
    { eapply evaluates_to_then; [now apply inverted_evaluates|].
      intros r W V. eapply evaluates_to_value;
        [|apply inverted_evaluates; [assumption | | assumption]].
      - now rewrite V.
      - intros Hr. apply (value_nonzero a Hn).
        assert (Qeq (value r) (inject_Z 0)) as Hz
          by (unfold Qeq, value; cbn [Qnum Qden inject_Z]; lia).
        rewrite V in Hz. rewrite <- (Qinv_involutive (value a)), Hz.
        reflexivity. }
    destruct H as (r & E & W & _ & V). exists r. split; [exact E|].
    apply well_formed_same_fields; try assumption.
    rewrite V. apply Qinv_involutive.
Qed.

Lemma inverted_involutive_witness :
  well_formed (Rational.new (-2) 3) /\
  numerator (Rational.new (-2) 3) <> 0 /\ cache initial_store = [] /\
  exists r,
    (i <- Rational.inverted (Rational.new (-2) 3) ;; Rational.inverted i)
      initial_store = (Ok r, initial_store) /\
    numerator r = numerator (Rational.new (-2) 3) /\
    denominator r = denominator (Rational.new (-2) 3).
Proof.
  assert (well_formed (Rational.new (-2) 3)) as W.
  { repeat split; cbn; try lia; discriminate. }
  split; [exact W|]. split; [cbn; lia|]. split; [reflexivity|].
  apply (inverted_involutive (Rational.new (-2) 3) initial_store);
    [exact W | cbn; lia | reflexivity].
Defined.

(** X13: ZERO is neutral for [add] and ONE for [mul], up to the identity of
    the object: the result has the numerator and the denominator of the
    other operand; and a product with ZERO is the instance ZERO. *)
Theorem neutral_elements (a : Rational) (st : store) :
  well_formed a -> cache st = [] ->
  (exists r,
     Rational.add Rational.ZERO a st = (Ok r, st) /\
     numerator r = numerator a /\ denominator r = denominator a) /\
  (exists r,
     Rational.mul Rational.ONE a st = (Ok r, st) /\
     numerator r = numerator a /\ denominator r = denominator a) /\
  Rational.mul Rational.ZERO a st = (Ok Rational.ZERO, st).
Proof.
  intros Wa Hst. pose proof (well_formed_positive a Wa) as Ha. split_ands.
  - destruct (add_evaluates Rational.ZERO a st) as (r & E & W & _ & V);
      [reflexivity | assumption | assumption |].
    exists r. split; [exact E|].
    apply well_formed_same_fields; try assumption.
    rewrite V. apply Qplus_0_l.
  - destruct (mul_evaluates Rational.ONE a st) as (r & E & W & _ & V);
      [reflexivity | assumption | assumption |].
    exists r. split; [exact E|].
    apply well_formed_same_fields; try assumption.
    rewrite V. apply Qmult_1_l.
  - unfold Rational.mul. cbn [numerator denominator Rational.ZERO].
    rewrite create_miss by assumption. reflexivity.
Qed.

Lemma neutral_elements_witness :
  well_formed (Rational.new 2 3) /\ cache initial_store = [] /\
  exists r,
    Rational.add Rational.ZERO (Rational.new 2 3) initial_store
    = (Ok r, initial_store) /\
    numerator r = numerator (Rational.new 2 3) /\
    denominator r = denominator (Rational.new 2 3).
Proof.
  assert (well_formed (Rational.new 2 3)) as W.
  { repeat split; cbn; try lia; discriminate. }
  split; [exact W|]. split; [reflexivity|].
  apply (neutral_elements (Rational.new 2 3) initial_store W eq_refl).
Defined.

(** ** The comparison operators *)

(** X14: for Rationals with positive denominators, swapping the operands
    of [cmp] negates its result, and [lt], [le], [gt], [ge] and [ne] are
    the strict and weak orders and the inequality of the values. *)
Theorem comparison_operators (a b : Rational) :
  0 < denominator a -> 0 < denominator b ->
  Rational.cmp b a = - Rational.cmp a b /\
  (Rational.lt a b = true <-> Qlt (value a) (value b)) /\
  (Rational.le a b = true <-> Qle (value a) (value b)) /\
  (Rational.gt a b = true <-> Qlt (value b) (value a)) /\
  (Rational.ge a b = true <-> Qle (value b) (value a)) /\
  (Rational.ne a b = true <-> ~ Qeq (value a) (value b)).
Proof.
  intros Ha Hb.
  unfold Rational.lt, Rational.le, Rational.gt, Rational.ge, Rational.ne.
  rewrite (cmp_value a b Ha Hb), (cmp_value b a Hb Ha).
  rewrite <- (Qcompare_antisym (value a) (value b)).
  rewrite Qlt_alt, Qle_alt, Qgt_alt, Qge_alt, Qeq_alt.
  destruct (Qcompare (value a) (value b)); cbn; split_ands;
    try reflexivity; split; intros H;
    try reflexivity; try discriminate H; try (intros H'; discriminate H');
    try (now contradiction H).
Qed.

Lemma comparison_operators_witness :
  0 < denominator (Rational.new 1 3) /\ 0 < denominator (Rational.new 1 2) /\
  Rational.cmp (Rational.new 1 2) (Rational.new 1 3)
  = - Rational.cmp (Rational.new 1 3) (Rational.new 1 2).
Proof.
  split; [cbn; lia|]. split; [cbn; lia|].
  apply (comparison_operators (Rational.new 1 3) (Rational.new 1 2));
    cbn; lia.
Defined.

(** ** Minimum and maximum *)

Lemma fold_extremum (better : Rational -> Rational -> bool)
  (R : Q -> Q -> Prop) :
  (forall x, R x x) ->
  (forall x y z, R x y -> R y z -> R x z) ->
  (forall p q x, Qeq p q -> R p x -> R q x) ->
  (forall a b, 0 < denominator a -> 0 < denominator b ->
     if better a b then R (value a) (value b) else R (value b) (value a)) ->
  forall rest first,
    0 < denominator first ->
    Forall (fun r => 0 < denominator r) rest ->
    let m := fold_left (fun result rational =>
                          if better result rational then result
                          else rational) rest first in
    In m (first :: rest) /\
    Forall (fun x => R (value m) (value x)) (first :: rest).
Proof.
  intros Hrefl Htrans Hcompat Hbetter.
  induction rest as [|x rest IH]; intros first Hfirst Hrest; cbn [fold_left].
  - split; [now left|]. constructor; [apply Hrefl | constructor].
  - inversion Hrest as [|? ? Hx Hrest']; subst.
    pose proof (Hbetter first x Hfirst Hx) as Hb.
    destruct (better first x).
    + destruct (IH first Hfirst Hrest') as [Hin Hall]. cbv zeta in Hin, Hall.
      split.
      * destruct Hin as [E | Hin]; [now left | right; now right].
      * inversion Hall as [|? ? Hf Hr]; subst.
        constructor; [exact Hf|]. constructor; [|exact Hr].
        eapply Htrans; [exact Hf | exact Hb].
    + destruct (IH x Hx Hrest') as [Hin Hall]. cbv zeta in Hin, Hall.
      split.
      * right. exact Hin.
      * inversion Hall as [|? ? Hf Hr]; subst.
        constructor; [|constructor; assumption].
        eapply Htrans; [exact Hf | exact Hb].
Qed.

Lemma lt_or_ge (a b : Rational) :
  0 < denominator a -> 0 < denominator b ->
  if Rational.lt a b then Qle (value a) (value b)
  else Qle (value b) (value a).
Proof.
  intros Ha Hb. unfold Rational.lt. rewrite (cmp_value a b Ha Hb).
  destruct (Qcompare (value a) (value b)) eqn:E; cbn.
  - apply Qeq_alt in E. rewrite E. apply Qle_refl.
  - apply Qlt_alt in E. now apply Qlt_le_weak.
  - apply Qgt_alt in E. now apply Qlt_le_weak.
Qed.

Lemma gt_or_le (a b : Rational) :
  0 < denominator a -> 0 < denominator b ->
  if Rational.gt a b then Qle (value b) (value a)
  else Qle (value a) (value b).
Proof.
  intros Ha Hb. unfold Rational.gt. rewrite (cmp_value a b Ha Hb).
  destruct (Qcompare (value a) (value b)) eqn:E; cbn.
  - apply Qeq_alt in E. rewrite E. apply Qle_refl.
  - apply Qlt_alt in E. now apply Qlt_le_weak.
  - apply Qgt_alt in E. now apply Qlt_le_weak.
Qed.

(** X15: [min] fails with a TypeError exactly for the empty argument list;
    otherwise it returns one of its arguments, and no argument has a
    smaller value. *)
Theorem min_least (rationals : list Rational) :
  Forall (fun r => 0 < denominator r) rationals ->
  (Rational.min rationals = Err TypeError <-> rationals = []) /\
  (rationals <> [] ->
   exists r,
     Rational.min rationals = Ok r /\ In r rationals /\
     Forall (fun x => Qle (value r) (value x)) rationals).
Proof.
  intros Hpos. destruct rationals as [|first rest].
  - split; [split; reflexivity | intros H; now contradiction H].
  - split; [split; intros H; discriminate H|]. intros _.
    inversion Hpos as [|? ? Hf Hr]; subst. eexists. split; [reflexivity|].
    apply (fold_extremum Rational.lt Qle); try assumption.
    + apply Qle_refl.
    + apply Qle_trans.
    + intros p q x E H. now rewrite <- E.
    + apply lt_or_ge.
Qed.

Lemma min_least_witness :
  Forall (fun r => 0 < denominator r)
    [Rational.new 1 2; Rational.new 1 3; Rational.new 2 3] /\
  exists r,
    Rational.min [Rational.new 1 2; Rational.new 1 3; Rational.new 2 3]
    = Ok r /\
    In r [Rational.new 1 2; Rational.new 1 3; Rational.new 2 3] /\
    Forall (fun x => Qle (value r) (value x))
      [Rational.new 1 2; Rational.new 1 3; Rational.new 2 3].
Proof.
  assert (Forall (fun r => 0 < denominator r)
            [Rational.new 1 2; Rational.new 1 3; Rational.new 2 3]) as H.
  { repeat constructor. }
  split; [exact H|].
  apply (min_least [Rational.new 1 2; Rational.new 1 3; Rational.new 2 3] H).
  discriminate.
Defined.

(** X16: [max] fails with a TypeError exactly for the empty argument list;
    otherwise it returns one of its arguments, and no argument has a
    greater value. *)
Theorem max_greatest (rationals : list Rational) :
  Forall (fun r => 0 < denominator r) rationals ->
  (Rational.max rationals = Err TypeError <-> rationals = []) /\
  (rationals <> [] ->
   exists r,
     Rational.max rationals = Ok r /\ In r rationals /\
     Forall (fun x => Qle (value x) (value r)) rationals).
Proof.
  intros Hpos. destruct rationals as [|first rest].
  - split; [split; reflexivity | intros H; now contradiction H].
  - split; [split; intros H; discriminate H|]. intros _.
    inversion Hpos as [|? ? Hf Hr]; subst. eexists. split; [reflexivity|].
    apply (fold_extremum Rational.gt (fun p q => Qle q p)); try assumption.
    + apply Qle_refl.
    + intros x y z Hxy Hyz. now apply Qle_trans with y.
    + intros p q x E H. now rewrite <- E.
    + apply gt_or_le.
Qed.

Lemma max_greatest_witness :
  Forall (fun r => 0 < denominator r)
    [Rational.new 1 2; Rational.new 1 3; Rational.new 2 3] /\
  exists r,
    Rational.max [Rational.new 1 2; Rational.new 1 3; Rational.new 2 3]
    = Ok r /\
    In r [Rational.new 1 2; Rational.new 1 3; Rational.new 2 3] /\
    Forall (fun x => Qle (value x) (value r))
      [Rational.new 1 2; Rational.new 1 3; Rational.new 2 3].
Proof.
  assert (Forall (fun r => 0 < denominator r)
            [Rational.new 1 2; Rational.new 1 3; Rational.new 2 3]) as H.
  { repeat constructor. }
  split; [exact H|].
  apply (max_greatest [Rational.new 1 2; Rational.new 1 3; Rational.new 2 3] H).
  discriminate.
Defined.

(** ** Sums and averages *)

Section Aggregates.

Context {decimalText : DecimalText}.

Lemma reduce_add_value (rationals : list Rational) (st : store) :
  cache st = [] ->
  Forall (fun r => 0 < denominator r) rationals ->
  forall result, well_formed result ->
    exists r,
      Rational.reduce_add rationals result st = (Ok r, st) /\
      well_formed r /\
      Qeq (value r) (value result + sum_of_values rationals).
Proof.
  intros Hst. induction 1 as [|x rest Hx Hrest IH]; intros result W.
  - exists result. split_ands; [reflexivity | assumption |].
    cbn. now rewrite Qplus_0_r.
  - destruct (add_evaluates result x st) as (r1 & E1 & W1 & _ & V1);
      [now apply well_formed_positive | assumption | assumption |].
    destruct (IH r1 W1) as (r & E & W' & V).
    exists r. split_ands; [|assumption|].
    + cbn [Rational.reduce_add]. unfold bind. now rewrite E1.
    + rewrite V, V1. cbn [sum_of_values fold_right].
      fold (sum_of_values rest). now rewrite Qplus_assoc.
Qed.

(** X17: [sum] of Rationals with positive denominators never fails, and
    its result is canonical and has the sum of their values; the sum of
    no arguments is the instance ZERO. *)
Theorem sum_exact (rationals : list Rational) (st : store) :
  Forall (fun r => 0 < denominator r) rationals ->
  cache st = [] ->
  (exists r,
     Rational.sum rationals st = (Ok r, st) /\ well_formed r /\
     Qeq (value r) (sum_of_values rationals)) /\
  Rational.sum [] st = (Ok Rational.ZERO, st).
Proof.
  intros Hpos Hst. split; [|reflexivity].
  destruct (reduce_add_value rationals st Hst Hpos Rational.ZERO
              well_formed_ZERO) as (r & E & W & V).
  exists r. split_ands; try assumption.
  rewrite V. apply Qplus_0_l.
Qed.

Lemma count_evaluates (n : Z) (st : store) :
  cache st = [] ->
  evaluates_to (Rational.R (inl n)) st (inject_Z n).
Proof.
  intros Hst. cbn [Rational.R]. unfold Rational.fromNumber.
  assert (forall m : M Rational, evaluates_to m st (inject_Z n) ->
            evaluates_to
              (cached <- Rational.getFromCache (key_number n) ;;
               match cached with
               | Some rational => ret rational
               | None =>
                   rational <- m ;;
                   _ <- Rational.addToCache rational (key_number n) ;;
                   ret rational
               end) st (inject_Z n)) as Hwrap.
  { intros m (r & E & H). exists r. split; [|exact H].
    unfold bind at 1. rewrite (getFromCache_miss _ _ Hst).
    now rewrite bind_intern. }
  apply Hwrap. destruct (create_evaluates n 1 st Hst) as (r & E & H); [lia|].
  exists r. split; [|exact H].
  rewrite (fromDecimal_miss _ _ Hst). cbn [D significand exponent].
  unfold bigint.e. cbn. now rewrite Z.mul_1_r.
Qed.

(** X18: [avg] of a non-empty list of Rationals with positive denominators
    never fails, and its result is canonical and has the sum of their
    values divided by their count. *)
Theorem avg_exact (rationals : list Rational) (st : store) :
  rationals <> [] ->
  Forall (fun r => 0 < denominator r) rationals ->
  cache st = [] ->
  exists r,
    Rational.avg rationals st = (Ok r, st) /\ well_formed r /\
    Qeq (value r)
        (sum_of_values rationals
         / inject_Z (Z.of_nat (List.length rationals))).
Proof.
  intros Hne Hpos Hst.
  destruct (reduce_add_value rationals st Hst Hpos Rational.ZERO
              well_formed_ZERO) as (total & Et & Wt & Vt).
  destruct (count_evaluates (Z.of_nat (List.length rationals)) st Hst)
    as (count & Ec & Wc & _ & Vc).
  assert (numerator count <> 0) as Hc.
  { intros Hz.
    assert (Qeq (value count) (inject_Z 0)) as Hv
      by (unfold Qeq, value; cbn [Qnum Qden inject_Z]; lia).
    rewrite Vc in Hv. unfold Qeq, inject_Z in Hv. cbn [Qnum Qden] in Hv.
    destruct rationals; [contradiction | cbn [List.length] in Hv; lia]. }
  destruct (div_evaluates total count st) as (r & E & W & _ & V);
    try assumption; [now apply well_formed_positive|].
  exists r. split_ands; [|assumption|].
  - unfold Rational.avg, Rational.sum. unfold bind at 1. rewrite Et.
    unfold bind at 1. now rewrite Ec.
  - rewrite V, Vt, Vc. now rewrite Qplus_0_l.
Qed.

Lemma fromDecimal_value (decimal : Decimal) (st : store) :
  cache st = [] ->
  exists r,
    Rational.fromDecimal decimal st = (Ok r, st) /\ well_formed r /\
    numerator r * 10 ^ Z.max (- exponent decimal) 0
    = significand decimal * 10 ^ Z.max (exponent decimal) 0 * denominator r.
Proof.
  intros Hst. rewrite (fromDecimal_miss _ _ Hst). unfold bigint.e.
  replace (if exponent decimal >? 0 then exponent decimal else 0)
    with (Z.max (exponent decimal) 0)
    by (rewrite Z.gtb_ltb; destruct (Z.ltb_spec 0 (exponent decimal)); lia).
  replace (if exponent decimal <? 0 then - exponent decimal else 0)
    with (Z.max (- exponent decimal) 0)
    by (destruct (Z.ltb_spec (exponent decimal) 0); lia).
  assert ((0 <=? Z.max (exponent decimal) 0) = true) as ->
    by (apply Z.leb_le; lia).
  assert ((0 <=? Z.max (- exponent decimal) 0) = true) as ->
    by (apply Z.leb_le; lia).
  assert (0 < 10 ^ Z.max (- exponent decimal) 0) as Hp
    by (apply Z.pow_pos_nonneg; lia).
  destruct (create_value
              (significand decimal * 10 ^ Z.max (exponent decimal) 0)
              (1 * 10 ^ Z.max (- exponent decimal) 0) st Hst)
    as (r & E & W & V); [lia|].
  exists r. split_ands; try assumption.
  unfold Qeq, value in V. cbn [Qnum Qden] in V.
  rewrite !Z2Pos.id in V by (try lia; now apply well_formed_positive).
  lia.
Qed.

(** X19: [fromDecimal] never fails, and its result is canonical and has
    the value significand * 10^exponent of the decimal. *)
Theorem fromDecimal_exact (decimal : Decimal) (st : store) :
  cache st = [] ->
  exists r,
    Rational.fromDecimal decimal st = (Ok r, st) /\ well_formed r /\
    numerator r * 10 ^ Z.max (- exponent decimal) 0
    = significand decimal * 10 ^ Z.max (exponent decimal) 0 * denominator r.
Proof. apply fromDecimal_value. Qed.

End Aggregates.

Lemma sum_exact_witness :
  Forall (fun r => 0 < denominator r) [Rational.new 1 2; Rational.new 1 3] /\
  cache initial_store = [] /\
  exists r,
    Rational.sum [Rational.new 1 2; Rational.new 1 3] initial_store
    = (Ok r, initial_store) /\ well_formed r /\
    Qeq (value r) (sum_of_values [Rational.new 1 2; Rational.new 1 3]).
Proof.
  assert (Forall (fun r => 0 < denominator r)
            [Rational.new 1 2; Rational.new 1 3]) as H.
  { repeat constructor. }
  split; [exact H|]. split; [reflexivity|].
  apply (sum_exact [Rational.new 1 2; Rational.new 1 3] initial_store H).
  reflexivity.
Defined.

Lemma avg_exact_witness :
  [Rational.new 1 2; Rational.new 1 3] <> [] /\
  Forall (fun r => 0 < denominator r) [Rational.new 1 2; Rational.new 1 3] /\
  cache initial_store = [] /\
  exists r,
    Rational.avg (decimalText := integer_numerals)
      [Rational.new 1 2; Rational.new 1 3] initial_store
    = (Ok r, initial_store) /\ well_formed r /\
    Qeq (value r)
        (sum_of_values [Rational.new 1 2; Rational.new 1 3] / inject_Z 2).
Proof.
  assert (Forall (fun r => 0 < denominator r)
            [Rational.new 1 2; Rational.new 1 3]) as H.
  { repeat constructor. }
  split; [discriminate|]. split; [exact H|]. split; [reflexivity|].
  apply (avg_exact (decimalText := integer_numerals)
           [Rational.new 1 2; Rational.new 1 3] initial_store);
    [discriminate | exact H | reflexivity].
Defined.

Lemma fromDecimal_exact_witness :
  cache initial_store = [] /\
  exists r,
    Rational.fromDecimal (decimalText := integer_numerals)
      (mkDecimal 250 (-2)) initial_store = (Ok r, initial_store) /\
    well_formed r /\
    numerator r * 10 ^ Z.max (- (-2)) 0
    = 250 * 10 ^ Z.max (-2) 0 * denominator r.
Proof.
  split; [reflexivity|].
  apply (fromDecimal_exact (decimalText := integer_numerals)
           (mkDecimal 250 (-2)) initial_store).
  reflexivity.
Defined.

(** ** A trailing slash in [fromString], with the value returned *)

Section TrailingSlash.

Context {decimalText : DecimalText}.

(** C10: for an input that is a decimal numeral followed by a slash and
    nothing else, [fromString] does not fail: it ignores the empty
    denominator part and returns the Rational of the numeral alone, the
    one it returns for the numeral without the slash, which is canonical
    and has the value significand * 10^exponent of the decimal that the
    numeral denotes. *)
Theorem fromString_trailing_slash (numeral : string) (decimal : Decimal)
  (st : store) :
  all_chars not_slash numeral = true ->
  Decimal_fromString numeral = Ok decimal ->
  cache st = [] ->
  Rational.fromString (numeral ++ "/") st = Rational.fromDecimal decimal st /\
  Rational.fromString (numeral ++ "/") st = Rational.fromString numeral st /\
  exists r,
    Rational.fromString (numeral ++ "/") st = (Ok r, st) /\
    well_formed r /\
    numerator r * 10 ^ Z.max (- exponent decimal) 0
    = significand decimal * 10 ^ Z.max (exponent decimal) 0 * denominator r.
Proof.
  intros Hns Hparse Hst.
  assert (Rational.fromString (numeral ++ "/") st
          = Rational.fromDecimal decimal st) as E1.
  { rewrite (fromString_one_field _ [""]); try assumption.
    - change (numeral ++ "/") with (numeral ++ String "/" "").
      rewrite (split_app_slash _ _ Hns). cbn [fst].
      now rewrite bind_lift, Hparse.
    - change (numeral ++ "/") with (numeral ++ String "/" "").
      now rewrite (split_app_slash _ _ Hns).
    - reflexivity. }
  assert (Rational.fromString numeral st
          = Rational.fromDecimal decimal st) as E2.
  { rewrite (fromString_one_field _ []); try assumption.
    - rewrite (split_no_slash _ Hns). cbn [fst].
      now rewrite bind_lift, Hparse.
    - now rewrite (split_no_slash _ Hns).
    - reflexivity. }
  split; [exact E1|]. split; [congruence|].
  rewrite E1. now apply fromDecimal_value.
Qed.

End TrailingSlash.

Lemma fromString_trailing_slash_witness :
  all_chars not_slash "5" = true /\
  Decimal_fromString (DecimalText := integer_numerals) "5" = Ok (D 5) /\
  cache initial_store = [] /\
  exists r,
    Rational.fromString (decimalText := integer_numerals) "5/" initial_store
    = (Ok r, initial_store) /\
    well_formed r /\
    numerator r * 10 ^ Z.max (- exponent (D 5)) 0
    = significand (D 5) * 10 ^ Z.max (exponent (D 5)) 0 * denominator r.
Proof.
  split; [reflexivity|]. split; [reflexivity|]. split; [reflexivity|].
  apply (fromString_trailing_slash (decimalText := integer_numerals)
           "5" (D 5) initial_store); reflexivity.
Defined.

(** The trailing slash on a numeral of 5: the result is 5/1. *)
Example fromString_five_slash :
  Rational.fromString (decimalText := integer_numerals) "5/" initial_store
  = (Ok (Rational.new 5 1), initial_store).
Proof. reflexivity. Qed.

(** ** JSON strings of the same value *)

(** X20: with positive denominators, [fromJson] returns the same Rational
    for the JSON forms of two pairs of integers exactly when the pairs
    denote the same fraction, reduced or not. *)
Theorem fromJson_same_value (n1 d1 n2 d2 : Z) (st : store) :
  cache st = [] -> 0 < d1 -> 0 < d2 ->
  (Rational.fromJson (Js.toString n1 ++ "/" ++ Js.toString d1) st
   = Rational.fromJson (Js.toString n2 ++ "/" ++ Js.toString d2) st
   <-> n1 * d2 = n2 * d1).
Proof.
  intros Hst H1 H2. rewrite !fromJson_integers by assumption.
  now apply create_same_iff.
Qed.

Lemma fromJson_same_value_witness :
  cache initial_store = [] /\ 0 < 4 /\ 0 < 2 /\
  Rational.fromJson "2/4" initial_store
  = Rational.fromJson "1/2" initial_store.
Proof.
  split; [reflexivity|]. split; [lia|]. split; [lia|].
  apply (fromJson_same_value 2 4 1 2 initial_store);
    [reflexivity | lia | lia | reflexivity].
Defined.

(** ** Rounding *)

Lemma divide_exact (k b : Z) (method : bigint.RoundMethod) :
  b <> 0 -> bigint.divide (k * b) b method = k.
Proof.
  intros Hb. unfold bigint.divide.
  rewrite Z.quot_mul, Z.rem_mul by assumption. cbn [Z.abs Z.eqb orb].
  destruct method; try reflexivity.
  destruct (Z.leb_spec (Z.abs b) (2 * 0)); [lia | reflexivity].
Qed.

Section Rounding.

Context {decimalText : DecimalText}.

(** X21: a decimal converted by [fromDecimal] and rounded back to its own
    number of places comes back unchanged, by every rounding method; so
    rounding the Rational of an already rounded decimal to the same places
    changes nothing. *)
Theorem roundToDecimal_fromDecimal (decimal : Decimal) (a : Rational)
  (places : Z) (method method' : bigint.RoundMethod) (st : store) :
  cache st = [] ->
  (exists r,
     Rational.fromDecimal decimal st = (Ok r, st) /\
     Rational.roundToDecimal r (- exponent decimal) method = decimal) /\
  (exists r,
     Rational.fromDecimal (Rational.roundToDecimal a places method) st
     = (Ok r, st) /\
     Rational.roundToDecimal r places method'
     = Rational.roundToDecimal a places method).
Proof.
  intros Hst.
  assert (forall d m, exists r,
            Rational.fromDecimal d st = (Ok r, st) /\
            Rational.roundToDecimal r (- exponent d) m = d) as Hback.
  { intros d m. destruct (fromDecimal_value d st Hst) as (r & E & W & V).
    exists r. split; [exact E|].
    pose proof (well_formed_positive r W) as Hd.
    unfold Rational.roundToDecimal, bigint.e.
    replace (if - exponent d >? 0 then - exponent d else 0)
      with (Z.max (- exponent d) 0)
      by (rewrite Z.gtb_ltb; destruct (Z.ltb_spec 0 (- exponent d)); lia).
    replace (if - exponent d <? 0 then - - exponent d else 0)
      with (Z.max (exponent d) 0)
      by (destruct (Z.ltb_spec (- exponent d) 0); lia).
    assert ((0 <=? Z.max (- exponent d) 0) = true) as ->
      by (apply Z.leb_le; lia).
    assert ((0 <=? Z.max (exponent d) 0) = true) as ->
      by (apply Z.leb_le; lia).
    assert (0 < 10 ^ Z.max (exponent d) 0) as Hp
      by (apply Z.pow_pos_nonneg; lia).
    rewrite V.
    replace (significand d * 10 ^ Z.max (exponent d) 0 * denominator r)
      with (significand d * (denominator r * 10 ^ Z.max (exponent d) 0))
      by ring.
    rewrite divide_exact by nia.
    unfold Decimal_fromBigInt. rewrite Z.opp_involutive. now destruct d. }
  split; [apply Hback|].
  destruct (Hback (Rational.roundToDecimal a places method) method')
    as (r & E & Hr).
  exists r. split; [exact E|].
  cbn [exponent Rational.roundToDecimal Decimal_fromBigInt] in Hr.
  now rewrite Z.opp_involutive in Hr.
Qed.

End Rounding.

Lemma roundToDecimal_fromDecimal_witness :
  cache initial_store = [] /\
  exists r,
    Rational.fromDecimal (decimalText := integer_numerals)
      (mkDecimal 250 (-2)) initial_store = (Ok r, initial_store) /\
    Rational.roundToDecimal r (- exponent (mkDecimal 250 (-2))) bigint.nearest
    = mkDecimal 250 (-2).
Proof.
  split; [reflexivity|].
  apply (roundToDecimal_fromDecimal (decimalText := integer_numerals)
           (mkDecimal 250 (-2)) Rational.ONE 0 bigint.nearest bigint.toZero
           initial_store eq_refl).
Defined.

Lemma integer_valued (q : Rational) (j : Z) :
  well_formed q -> Qeq (value q) (inject_Z j) ->
  numerator q = j /\ denominator q = 1.
Proof.
  intros W V.
  assert (well_formed (if j =? 0 then Rational.ZERO else Rational.new j 1))
    as Wj.
  { destruct (Z.eqb_spec j 0) as [-> | Hj]; [apply well_formed_ZERO|].
    unfold well_formed, canonical, Rational.new.
    cbn [numerator denominator identity].
    repeat split; try discriminate; try lia.
    apply Z.gcd_1_r. }
  destruct (well_formed_same_fields q _ W Wj) as [En Ed].
  - rewrite V. destruct (Z.eqb_spec j 0) as [-> | Hj]; reflexivity.
  - rewrite En, Ed. destruct (Z.eqb_spec j 0) as [-> | Hj]; split; reflexivity.
Qed.

(** X22: [roundByRational] fails with DivisionByZero for the unit zero;
    for any other unit it returns a canonical Rational that is an integer
    multiple of the unit, and a Rational that already is an integer
    multiple of the unit is returned with its value unchanged, by every
    rounding method. *)
Theorem roundByRational_multiple (a unit : Rational)
  (method : bigint.RoundMethod) (st : store) :
  0 < denominator a -> well_formed unit -> cache st = [] ->
  (numerator unit = 0 ->
     Rational.roundByRational a unit method st = (Err DivisionByZero, st)) /\
  (numerator unit <> 0 ->
     exists k r,
       Rational.roundByRational a unit method st = (Ok r, st) /\
       well_formed r /\
       Qeq (value r) (inject_Z k * value unit) /\
       (forall j, Qeq (value a) (inject_Z j * value unit) ->
                  Qeq (value r) (value a))).
Proof.
  intros Ha Wu Hst. pose proof (well_formed_positive unit Wu) as Hu. split.
  - intros Hz. unfold Rational.roundByRational, Rational.div.
    unfold bind at 1. unfold bind at 1.
    now rewrite (inverted_zero unit st Wu Hz).
  - intros Hnz.
    destruct (div_evaluates a unit st Ha Wu Hnz Hst) as (q & Eq & Wq & _ & Vq).
    set (k := bigint.divide (numerator q) (denominator q) method).
    destruct (create_value (numerator unit * k) (denominator unit) st Hst Hu)
      as (r & E & W & V).
    assert (Qeq (value r) (inject_Z k * value unit)) as Vk.
    { rewrite V. unfold Qeq, Qmult, inject_Z, value. cbn [Qnum Qden].
      rewrite !Z2Pos.id by assumption.
      rewrite Pos2Z.inj_mul, Z2Pos.id by assumption. ring. }
    exists k, r. split_ands; try assumption.
    + unfold Rational.roundByRational. unfold bind. now rewrite Eq.
    + intros j Hj.
      assert (Qeq (value q) (inject_Z j)) as Vj.
      { rewrite Vq, Hj. apply Qdiv_mult_l. now apply value_nonzero. }
      destruct (integer_valued q j Wq Vj) as [En Ed].
      assert (k = j) as ->.
      { subst k. rewrite En, Ed.
        rewrite <- (Z.mul_1_r j) at 1. apply divide_exact. lia. }
      now rewrite Vk, Hj.
Qed.

Lemma roundByRational_multiple_witness :
  0 < denominator (Rational.new 7 3) /\ well_formed (Rational.new 1 2) /\
  cache initial_store = [] /\
  exists k r,
    Rational.roundByRational (Rational.new 7 3) (Rational.new 1 2)
      bigint.toZero initial_store = (Ok r, initial_store) /\
    well_formed r /\
    Qeq (value r) (inject_Z k * value (Rational.new 1 2)) /\
    (forall j, Qeq (value (Rational.new 7 3))
                   (inject_Z j * value (Rational.new 1 2)) ->
               Qeq (value r) (value (Rational.new 7 3))).
Proof.
  assert (well_formed (Rational.new 1 2)) as W.
  { repeat split; cbn; try lia; discriminate. }
  split; [cbn; lia|]. split; [exact W|]. split; [reflexivity|].
  apply (roundByRational_multiple (Rational.new 7 3) (Rational.new 1 2)
           bigint.toZero initial_store); [cbn; lia | exact W | reflexivity |].
  cbn. lia.
Defined.

Lemma quot_abs_div (a b : Z) :
  0 < b -> Z.abs (Z.quot a b) = Z.abs a / b.
Proof.
  intros Hb. rewrite <- Z.quot_abs by lia. rewrite (Z.abs_eq b) by lia.
  apply Z.quot_div_nonneg; lia.
Qed.

Lemma truncation_bounds (a b : Z) :
  0 < b ->
  Z.abs (Z.quot a b) * b <= Z.abs a < (Z.abs (Z.quot a b) + 1) * b.
Proof.
  intros Hb. rewrite quot_abs_div by assumption.
  pose proof (Z.mul_div_le (Z.abs a) b Hb).
  pose proof (Z.mul_succ_div_gt (Z.abs a) b Hb). lia.
Qed.

Lemma surplus_positive (a : Rational) (n : Z) :
  well_formed a -> numerator a <> 0 -> 1 <= n ->
  n < digit_count
        (Z.quot (numerator a * 10 ^ (n + digit_count (denominator a)))
                (denominator a)).
Proof.
  intros ((_ & Hden) & _) Hnum Hn.
  destruct (digit_count_bounds (denominator a)) as (Hdl & _ & Hdhi); [lia|].
  rewrite Z.abs_eq in Hdhi by lia.
  set (dl := digit_count (denominator a)) in *.
  set (d := denominator a) in *.
  set (q := Z.quot (numerator a * 10 ^ (n + dl)) d).
  assert (0 < 10 ^ n) as Hpn by (apply Z.pow_pos_nonneg; lia).
  assert (10 ^ n <= Z.abs q) as Hq.
  { subst q. rewrite quot_abs_div by lia.
    apply Z.div_le_lower_bound; [lia|].
    rewrite Z.abs_mul, (Z.abs_eq (10 ^ _)) by (apply Z.pow_nonneg; lia).
    rewrite Z.pow_add_r by lia.
    assert (1 <= Z.abs (numerator a)) as Habs by lia.
    assert (d * 10 ^ n <= 10 ^ n * 10 ^ dl) as H1
      by (rewrite Z.mul_comm; apply Z.mul_le_mono_nonneg_l; lia).
    assert (1 * (10 ^ n * 10 ^ dl)
            <= Z.abs (numerator a) * (10 ^ n * 10 ^ dl)) as H2
      by (apply Z.mul_le_mono_nonneg_r; lia).
    lia. }
  assert (q <> 0) as Hq0 by lia.
  destruct (digit_count_bounds q Hq0) as (Hl & _ & Hhi).
  assert (10 ^ n < 10 ^ digit_count q) as H by lia.
  apply Z.pow_lt_mono_r_iff in H; lia.
Qed.

(** X23: with the default method, truncation toward zero, and at least
    one digit requested, [roundToSignificants] of a nonzero canonical
    Rational returns a decimal whose significand has exactly the requested
    number of digits and whose magnitude is the largest one with that
    exponent that does not exceed the magnitude of the Rational. *)
Theorem roundToSignificants_truncates (a : Rational) (n : Z) :
  well_formed a -> numerator a <> 0 -> 1 <= n ->
  let decimal := Rational.roundToSignificants a n bigint.toZero in
  digit_count (significand decimal) = n /\
  Z.abs (significand decimal) * 10 ^ Z.max (exponent decimal) 0
    * denominator a
  <= Z.abs (numerator a) * 10 ^ Z.max (- exponent decimal) 0
  < (Z.abs (significand decimal) + 1) * 10 ^ Z.max (exponent decimal) 0
    * denominator a.
Proof.
  intros Wa Hnum Hn decimal.
  split; [now apply roundToSignificants_toZero|].
  pose proof (surplus_positive a n Wa Hnum Hn) as Hsur.
  subst decimal. unfold Rational.roundToSignificants.
  rewrite (well_formed_not_ZERO a Wa Hnum). cbv zeta.
  destruct Wa as ((_ & Hden) & _).
  rewrite !toString_length.
  replace (Z.of_nat (String.length (Js.toString (denominator a))))
    with (digit_count (denominator a))
    by (rewrite <- (toString_length (denominator a));
        destruct (Z.ltb_spec (denominator a) 0); lia).
  destruct (digit_count_bounds (denominator a)) as (Hdl & _ & _); [lia|].
  set (dl := digit_count (denominator a)) in *.
  set (d := denominator a) in *.
  cbn [significand exponent Decimal_fromBigInt].
  unfold bigint.e, bigint.divide.
  assert ((0 <=? n + dl) = true) as -> by (apply Z.leb_le; lia).
  set (ext := n + dl) in *.
  set (q := Z.quot (numerator a * 10 ^ ext) d) in *.
  set (s := digit_count q - n).
  assert (0 < s) as Hspos by (subst s; lia).
  destruct (Z.leb_spec 0 (- s)) as [Hs | Hs]; [lia|].
  assert (0 < 10 ^ s) as Hp by (apply Z.pow_pos_nonneg; lia).
  assert (0 < 10 ^ ext) as He by (apply Z.pow_pos_nonneg; lia).
  replace (- - s) with s by lia.
  pose proof (truncation_bounds (numerator a * 10 ^ ext) d) as Hq.
  fold q in Hq. rewrite Z.abs_mul, (Z.abs_eq (10 ^ ext)) in Hq by lia.
  specialize (Hq ltac:(lia)).
  pose proof (truncation_bounds q (10 ^ s) Hp) as Hsig.
  set (S := Z.abs (Z.quot q (10 ^ s))) in *.
  set (Q := Z.abs q) in *.
  set (N := Z.abs (numerator a)) in *.
  assert (S * 10 ^ s * d <= N * 10 ^ ext) as Hlo by nia.
  assert (N * 10 ^ ext < (S + 1) * 10 ^ s * d) as Hhi by nia.
  destruct (Z.le_gt_cases 0 (s - ext)) as [Hexp | Hexp].
  - rewrite Z.max_l by lia. rewrite Z.max_r by lia.
    rewrite Z.pow_0_r, Z.mul_1_r.
    replace s with ((s - ext) + ext) in Hlo, Hhi by lia.
    rewrite Z.pow_add_r in Hlo, Hhi by lia.
    assert (0 < 10 ^ (s - ext)) by (apply Z.pow_pos_nonneg; lia).
    split.
    + apply Z.mul_le_mono_pos_r with (p := 10 ^ ext); [assumption|]. lia.
    + apply Z.mul_lt_mono_pos_r with (p := 10 ^ ext); [assumption|]. lia.
  - rewrite Z.max_r by lia. rewrite Z.max_l by lia.
    rewrite Z.pow_0_r, Z.mul_1_r.
    replace ext with (- (s - ext) + s) in Hlo, Hhi by lia.
    rewrite Z.pow_add_r in Hlo, Hhi by lia.
    assert (0 < 10 ^ (- (s - ext))) by (apply Z.pow_pos_nonneg; lia).
    split.
    + apply Z.mul_le_mono_pos_r with (p := 10 ^ s); [assumption|]. lia.
    + apply Z.mul_lt_mono_pos_r with (p := 10 ^ s); [assumption|]. lia.
Qed.

Lemma roundToSignificants_truncates_witness :
  well_formed (Rational.new (-2) 3) /\
  numerator (Rational.new (-2) 3) <> 0 /\ 1 <= 5 /\
  digit_count
    (significand
       (Rational.roundToSignificants (Rational.new (-2) 3) 5 bigint.toZero))
  = 5.
Proof.
  assert (well_formed (Rational.new (-2) 3)) as W.
  { repeat split; cbn; try lia; discriminate. }
  split; [exact W|]. split; [cbn; lia|]. split; [lia|].
  apply (roundToSignificants_truncates (Rational.new (-2) 3) 5);
    [exact W | cbn; lia | lia].
Defined.

(** X24: [roundToDecimal] with truncation toward zero returns the decimal
    with exponent -places whose magnitude is the largest multiple of
    10^-places that does not exceed the magnitude of the Rational, with the
    sign of the Rational. *)
Theorem roundToDecimal_truncates (a : Rational) (places : Z) :
  0 < denominator a ->
  let decimal := Rational.roundToDecimal a places bigint.toZero in
  exponent decimal = - places /\
  0 <= significand decimal * numerator a /\
  Z.abs (significand decimal) * (denominator a * 10 ^ Z.max (- places) 0)
  <= Z.abs (numerator a) * 10 ^ Z.max places 0
  < (Z.abs (significand decimal) + 1)
    * (denominator a * 10 ^ Z.max (- places) 0).
Proof.
  intros Hd decimal. subst decimal.
  unfold Rational.roundToDecimal, bigint.e.
  cbn [exponent significand Decimal_fromBigInt].
  replace (if places >? 0 then places else 0) with (Z.max places 0)
    by (rewrite Z.gtb_ltb; destruct (Z.ltb_spec 0 places); lia).
  replace (if places <? 0 then - places else 0) with (Z.max (- places) 0)
    by (destruct (Z.ltb_spec places 0); lia).
  assert ((0 <=? Z.max places 0) = true) as -> by (apply Z.leb_le; lia).
  assert ((0 <=? Z.max (- places) 0) = true) as -> by (apply Z.leb_le; lia).
  unfold bigint.divide.
  assert (0 < 10 ^ Z.max places 0) as Hp by (apply Z.pow_pos_nonneg; lia).
  assert (0 < 10 ^ Z.max (- places) 0) as Hm
    by (apply Z.pow_pos_nonneg; lia).
  set (N := numerator a * 10 ^ Z.max places 0).
  set (D := denominator a * 10 ^ Z.max (- places) 0).
  assert (0 < D) as HD by (subst D; nia).
  split; [reflexivity | split].
  - assert (0 <= Z.quot N D * N) as H.
    { destruct (Z.le_gt_cases 0 N).
      - assert (0 <= Z.quot N D) by (apply Z.quot_pos; lia). nia.
      - assert (Z.quot N D <= 0).
        { rewrite <- (Z.opp_involutive N), Z.quot_opp_l by lia.
          assert (0 <= Z.quot (- N) D) by (apply Z.quot_pos; lia). lia. }
        nia. }
    subst N. nia.
  - pose proof (truncation_bounds N D HD) as H.
    subst N. rewrite Z.abs_mul, (Z.abs_eq (10 ^ _)) in H by lia. exact H.
Qed.

Lemma roundToDecimal_truncates_witness :
  0 < denominator (Rational.new (-5) 2) /\
  exponent (Rational.roundToDecimal (Rational.new (-5) 2) 2 bigint.toZero)
  = - 2.
Proof.
  split; [cbn; lia|].
  apply (roundToDecimal_truncates (Rational.new (-5) 2) 2). cbn. lia.
Defined.

(** ** The cache is never written *)

Lemma cache_preserved_ret {A} (a : A) : cache_preserved (ret a).
Proof. intros st. reflexivity. Qed.

Lemma cache_preserved_throw {A} (exn : error) :
  cache_preserved (@throw A exn).
Proof. intros st. reflexivity. Qed.

Lemma cache_preserved_lift {A} (r : result A) : cache_preserved (lift r).
Proof. intros st. reflexivity. Qed.

Lemma cache_preserved_bind {A B} (m : M A) (k : A -> M B) :
  cache_preserved m -> (forall a, cache_preserved (k a)) ->
  cache_preserved (bind m k).
Proof.
  intros Hm Hk st. unfold bind. specialize (Hm st).
  destruct (m st) as [[a | exn] st']; cbn [snd] in *.
  - now rewrite (Hk a st').
  - exact Hm.
Qed.

Lemma cache_preserved_getFromCache (k : key) :
  cache_preserved (Rational.getFromCache k).
Proof.
  intros st. unfold Rational.getFromCache.
  destruct (JsMap.get k (cache st)); reflexivity.
Qed.

Lemma cache_preserved_addToCache (rational : Rational) (k : key) :
  cache_preserved (Rational.addToCache rational k).
Proof. intros st. reflexivity. Qed.

Lemma cache_preserved_interned (k : key) (m : M Rational) :
  cache_preserved m ->
  cache_preserved
    (bind (Rational.getFromCache k) (fun cached =>
       match cached with
       | Some rational => ret rational
       | None =>
           bind m (fun rational =>
             bind (Rational.addToCache rational k) (fun _ => ret rational))
       end)).
Proof.
  intros Hm. apply cache_preserved_bind; [apply cache_preserved_getFromCache|].
  intros [r|]; [apply cache_preserved_ret|].
  apply cache_preserved_bind; [exact Hm|]. intros r.
  apply cache_preserved_bind; [apply cache_preserved_addToCache|].
  intros _. apply cache_preserved_ret.
Qed.

Lemma cache_preserved_create (n d : Z) :
  cache_preserved (Rational.create n d).
Proof.
  unfold Rational.create.
  destruct (negb (n =? 0)); [|apply cache_preserved_ret].
  destruct (d <=? 0); [apply cache_preserved_throw|].
  apply cache_preserved_bind; [apply cache_preserved_getFromCache|].
  intros [r|]; [apply cache_preserved_ret|]. cbv zeta.
  apply cache_preserved_bind; [apply cache_preserved_addToCache|].
  intros _. apply cache_preserved_ret.
Qed.

Lemma cache_preserved_inverted (a : Rational) :
  cache_preserved (Rational.inverted a).
Proof.
  unfold Rational.inverted. destruct (Rational.is_ZERO a);
    [apply cache_preserved_throw | apply cache_preserved_create].
Qed.

Lemma cache_preserved_div (a b : Rational) :
  cache_preserved (Rational.div a b).
Proof.
  apply cache_preserved_bind; [apply cache_preserved_inverted|].
  intros; apply cache_preserved_create.
Qed.

Lemma cache_preserved_fromJson (s : string) :
  cache_preserved (Rational.fromJson s).
Proof.
  unfold Rational.fromJson.
  apply cache_preserved_bind; [apply cache_preserved_getFromCache|].
  intros [r|]; [apply cache_preserved_ret|].
  destruct (Js.split s) as [numerator rest].
  apply cache_preserved_bind; [apply cache_preserved_lift|]. intros n.
  apply cache_preserved_bind; [apply cache_preserved_lift|]. intros d.
  apply cache_preserved_bind; [apply cache_preserved_create|]. intros r.
  apply cache_preserved_bind; [apply cache_preserved_addToCache|].
  intros _. apply cache_preserved_ret.
Qed.

Section CachePreserved.

Context {decimalText : DecimalText}.

Lemma cache_preserved_fromDecimal (decimal : Decimal) :
  cache_preserved (Rational.fromDecimal decimal).
Proof. apply cache_preserved_interned, cache_preserved_create. Qed.

Lemma cache_preserved_fromNumber (n : Z) :
  cache_preserved (Rational.fromNumber n).
Proof. apply cache_preserved_interned, cache_preserved_fromDecimal. Qed.

Lemma cache_preserved_fromString (s : string) :
  cache_preserved (Rational.fromString s).
Proof.
  unfold Rational.fromString.
  apply cache_preserved_bind; [apply cache_preserved_getFromCache|].
  intros [r|]; [apply cache_preserved_ret|].
  destruct (Js.split s) as [numeratorString rest].
  apply cache_preserved_bind; [apply cache_preserved_lift|]. intros d1.
  apply cache_preserved_bind; [apply cache_preserved_fromDecimal|].
  intros r1. apply cache_preserved_bind.
  - destruct (Js.truthy (hd_error rest)); [|apply cache_preserved_ret].
    apply cache_preserved_bind; [apply cache_preserved_lift|]. intros d2.
    apply cache_preserved_bind; [apply cache_preserved_fromDecimal|].
    intros r2. apply cache_preserved_div.
  - intros r.
    apply cache_preserved_bind; [apply cache_preserved_addToCache|].
    intros _. apply cache_preserved_ret.
Qed.

Lemma cache_preserved_reduce_add (rationals : list Rational) :
  forall result, cache_preserved (Rational.reduce_add rationals result).
Proof.
  induction rationals as [|r rest IH]; intros result; cbn.
  - apply cache_preserved_ret.
  - apply cache_preserved_bind; [apply cache_preserved_create | exact IH].
Qed.

Lemma cache_preserved_avg (rationals : list Rational) :
  cache_preserved (Rational.avg rationals).
Proof.
  apply cache_preserved_bind; [apply cache_preserved_reduce_add|].
  intros total. apply cache_preserved_bind.
  - apply cache_preserved_fromNumber.
  - intros count. apply cache_preserved_div.
Qed.

(** X25: no operation of the class writes [Rational.cache]: whatever the
    two maps hold and whatever the operation returns or throws, the cache
    afterwards is the cache before; in particular a cache that is empty
    stays empty. *)
Theorem cache_never_written (a b : Rational) (rationals : list Rational)
  (s : string) (n d : Z) (k : key) (decimal : Decimal)
  (method : bigint.RoundMethod) :
  (cache_preserved (Rational.addToCache a k) /\
   cache_preserved (Rational.getFromCache k) /\
   cache_preserved (Rational.create n d)) /\
  (cache_preserved (Rational.fromJson s) /\
   cache_preserved (Rational.fromString s) /\
   cache_preserved (Rational.fromNumber n) /\
   cache_preserved (Rational.fromDecimal decimal)) /\
  (cache_preserved (Rational.add a b) /\
   cache_preserved (Rational.sub a b) /\
   cache_preserved (Rational.mul a b) /\
   cache_preserved (Rational.div a b) /\
   cache_preserved (Rational.negated a) /\
   cache_preserved (Rational.abs a) /\
   cache_preserved (Rational.inverted a) /\
   cache_preserved (Rational.roundByRational a b method)) /\
  (cache_preserved (Rational.sum rationals) /\
   cache_preserved (Rational.avg rationals) /\
   cache_preserved (Rational.median rationals)).
Proof.
  split; [|split; [|split]]; split_ands.
  - apply cache_preserved_addToCache.
  - apply cache_preserved_getFromCache.
  - apply cache_preserved_create.
  - apply cache_preserved_fromJson.
  - apply cache_preserved_fromString.
  - apply cache_preserved_fromNumber.
  - apply cache_preserved_fromDecimal.
  - apply cache_preserved_create.
  - apply cache_preserved_bind; [apply cache_preserved_create|].
    intros; apply cache_preserved_create.
  - apply cache_preserved_create.
  - apply cache_preserved_div.
  - apply cache_preserved_create.
  - unfold Rational.abs. destruct (Rational.negative a);
      [apply cache_preserved_create | apply cache_preserved_ret].
  - apply cache_preserved_inverted.
  - apply cache_preserved_bind; [apply cache_preserved_div|].
    intros; apply cache_preserved_create.
  - apply cache_preserved_reduce_add.
  - apply cache_preserved_avg.
  - unfold Rational.median.
    destruct (negb (Z.of_nat (List.length rationals) =? 0));
      [|apply cache_preserved_throw].
    cbv zeta. destruct (negb (Z.land _ 1 =? 0));
      [apply cache_preserved_ret | apply cache_preserved_avg].
Qed.

End CachePreserved.

(** ** The display string read back *)

Lemma append_nil_r (s : string) : s ++ "" = s.
Proof. induction s as [|c s IH]; cbn; [reflexivity | now rewrite IH]. Qed.

Lemma create_over_one (z : Z) (st : store) :
  cache st = [] ->
  Rational.create z 1 st
  = (Ok (if z =? 0 then Rational.ZERO else Rational.new z 1), st).
Proof.
  intros Hst. rewrite (create_miss z 1 st Hst).
  destruct (z =? 0); [reflexivity|]. cbn [Z.leb Z.compare].
  now rewrite Z.gcd_1_r, !Z.div_1_r.
Qed.

Lemma toString_truthy (z : Z) : Js.truthy (Some (Js.toString z)) = true.
Proof.
  unfold Js.toString. destruct (z <? 0); [reflexivity|].
  destruct (digits_nonempty z) as (c & rest & ->). reflexivity.
Qed.

Section DisplayString.

Context {decimalText : DecimalText}.

Lemma fromDecimal_integer (decimal : Decimal) (z : Z) (st : store) :
  cache st = [] ->
  significand decimal * 10 ^ Z.max (exponent decimal) 0
  = z * 10 ^ Z.max (- exponent decimal) 0 ->
  Rational.fromDecimal decimal st
  = (Ok (if z =? 0 then Rational.ZERO else Rational.new z 1), st).
Proof.
  intros Hst Hz. rewrite <- (create_over_one z st Hst).
  rewrite (fromDecimal_miss _ _ Hst). unfold bigint.e.
  replace (if exponent decimal >? 0 then exponent decimal else 0)
    with (Z.max (exponent decimal) 0)
    by (rewrite Z.gtb_ltb; destruct (Z.ltb_spec 0 (exponent decimal)); lia).
  replace (if exponent decimal <? 0 then - exponent decimal else 0)
    with (Z.max (- exponent decimal) 0)
    by (destruct (Z.ltb_spec (exponent decimal) 0); lia).
  assert ((0 <=? Z.max (exponent decimal) 0) = true) as ->
    by (apply Z.leb_le; lia).
  assert ((0 <=? Z.max (- exponent decimal) 0) = true) as ->
    by (apply Z.leb_le; lia).
  assert (0 < 10 ^ Z.max (- exponent decimal) 0) as Hp
    by (apply Z.pow_pos_nonneg; lia).
  apply create_same_iff; [assumption | lia | lia | lia].
Qed.

Lemma fromString_two_fields (s1 s2 : string) (st : store) :
  all_chars not_slash s1 = true ->
  all_chars not_slash s2 = true ->
  Js.truthy (Some s2) = true ->
  cache st = [] ->
  Rational.fromString (s1 ++ "/" ++ s2) st =
  (d1 <- lift (Decimal_fromString s1) ;;
   r1 <- Rational.fromDecimal d1 ;;
   d2 <- lift (Decimal_fromString s2) ;;
   r2 <- Rational.fromDecimal d2 ;;
   Rational.div r1 r2) st.
Proof.
  intros H1 H2 Ht Hst. unfold Rational.fromString.
  unfold bind at 1. rewrite (getFromCache_miss _ _ Hst).
  change (s1 ++ "/" ++ s2) with (s1 ++ String "/" s2).
  rewrite (split_app_slash _ _ H1), (split_no_slash _ H2).
  cbn [fst snd hd_error Js.string_of]. rewrite Ht. rewrite !bind_lift.
  destruct (Decimal_fromString s1) as [d1|]; [|reflexivity].
  unfold bind at 1. unfold bind at 5.
  destruct (Rational.fromDecimal d1 st) as [[r1|] st1]; [|reflexivity].
  apply bind_intern.
Qed.

(** X26: for a decimal parser that reads the integer numerals, and every
    canonical Rational [x], [fromString(x.string)] returns a Rational with
    the numerator and the denominator of [x]. *)
Theorem fromString_string (x : Rational) (st : store) :
  reads_integers decimalText ->
  canonical x ->
  cache st = [] ->
  exists r,
    Rational.fromString (Rational.string_ x) st = (Ok r, st) /\
    numerator r = numerator x /\ denominator r = denominator x.
Proof.
  intros Hread [Hg Hd] Hst. unfold Rational.string_.
  destruct (Hread (numerator x)) as (dn & En & Vn).
  destruct (Z.eqb_spec (denominator x) 1) as [E1 | Hne].
  - rewrite append_nil_r.
    rewrite (fromString_one_field _ []);
      [ | now rewrite (split_no_slash _ (toString_no_slash _))
        | reflexivity | assumption].
    rewrite (split_no_slash _ (toString_no_slash _)). cbn [fst].
    rewrite bind_lift, En. rewrite (fromDecimal_integer dn _ st Hst Vn).
    eexists. split; [reflexivity|]. rewrite E1.
    destruct (Z.eqb_spec (numerator x) 0) as [-> | Hn]; split; reflexivity.
  - assert (numerator x <> 0) as Hn.
    { intros Hz. rewrite Hz in Hg. cbn in Hg. rewrite Z.abs_eq in Hg; lia. }
    destruct (Hread (denominator x)) as (dd & Ed & Vd).
    rewrite fromString_two_fields;
      [ | apply toString_no_slash | apply toString_no_slash
        | apply toString_truthy | assumption].
    rewrite bind_lift, En. unfold bind at 1.
    rewrite (fromDecimal_integer dn _ st Hst Vn).
    rewrite bind_lift, Ed. unfold bind at 1.
    rewrite (fromDecimal_integer dd _ st Hst Vd).
    destruct (Z.eqb_spec (numerator x) 0) as [|_]; [contradiction|].
    destruct (Z.eqb_spec (denominator x) 0) as [|_]; [lia|].
    unfold Rational.div, Rational.inverted, Rational.negative.
    cbn [Rational.is_ZERO Rational.new identity numerator denominator].
    assert ((denominator x <? 0) = false) as -> by (apply Z.ltb_ge; lia).
    unfold bigint.abs. rewrite Z.abs_eq by lia.
    unfold bind. rewrite create_reduced; [ | assumption | lia | lia | ].
    + unfold Rational.mul.
      cbn [Rational.new numerator denominator].
      rewrite Z.mul_1_r, Z.mul_1_l.
      rewrite create_reduced; [ | assumption | assumption | lia | ].
      * eexists. split; [reflexivity|]. split; reflexivity.
      * now rewrite <- Z.gcd_abs_l.
    + apply Z.gcd_1_l.
Qed.

End DisplayString.

Lemma integer_numerals_read_integers : reads_integers integer_numerals.
Proof.
  intros z. exists (mkDecimal z 0). split; [|reflexivity].
  cbn [Decimal_fromString integer_numerals]. unfold Js.toString.
  destruct (Z.ltb_spec z 0) as [Hneg | Hpos].
  - replace (Ascii.eqb "-" "-") with true by reflexivity.
    rewrite parse_number_digits by lia. cbn [option_map].
    now rewrite Z.opp_involutive.
  - pose proof (parse_number_digits z Hpos) as Hp.
    pose proof (digits_all_digit z) as Ha.
    destruct (Js.digits z) as [|c rest]; [discriminate Hp|].
    cbn [all_chars] in Ha. apply andb_true_iff in Ha as [Hc _].
    destruct (is_digit_facts c Hc) as (-> & _). now rewrite Hp.
Qed.

Lemma fromString_string_witness :
  reads_integers integer_numerals /\
  canonical (Rational.new (-1) 3) /\
  cache initial_store = [] /\
  exists r,
    Rational.fromString (decimalText := integer_numerals)
      (Rational.string_ (Rational.new (-1) 3)) initial_store
    = (Ok r, initial_store) /\
    numerator r = numerator (Rational.new (-1) 3) /\
    denominator r = denominator (Rational.new (-1) 3).
Proof.
  assert (canonical (Rational.new (-1) 3)) as Hx by (split; cbn; lia).
  split; [exact integer_numerals_read_integers|].
  split; [exact Hx|]. split; [reflexivity|].
  apply (fromString_string (decimalText := integer_numerals)
           (Rational.new (-1) 3) initial_store
           integer_numerals_read_integers Hx eq_refl).
Defined.
